(** * cursor-docs-crawler: the crawl frontier, the page model, the page sorter,
      the PDF assembler's de-duplication and the content parser's image
      classifier and error fallback, embedded from the Python sources.

    Python values are modelled as follows.
    - [str] is [string]; the model covers ASCII text (character classes such
      as [str.isdigit], [str.lower], [str.strip] are the ASCII ones).
    - [int] is [Z].
    - [Set[str]] is [gset string], the [deque] is a [list string].
    - A raised exception is the [None] of an [option] (or a [Raise] of
      [Exn] where the handler reads the exception). *)

From Stdlib Require Import ZArith Ascii DecimalString.
From stdpp Require Import base gmap sets list sorting strings.

Local Open Scope Z_scope.

(** ** Python string operations used by the sources *)

Module PyStr.

Definition code (c : ascii) : N := Ascii.N_of_ascii c.

Definition in_range (lo hi : N) (c : ascii) : bool :=
  ((lo <=? code c) && (code c <=? hi))%N.

Definition isdigit (c : ascii) : bool := in_range 48 57 c.
Definition isupper (c : ascii) : bool := in_range 65 90 c.
Definition islower (c : ascii) : bool := in_range 97 122 c.
Definition isalpha (c : ascii) : bool := isupper c || islower c.

(** ASCII white space of [str.isspace]: TAB..CR, FS..US and the blank. *)
Definition isspace (c : ascii) : bool := in_range 9 13 c || in_range 28 32 c.

Definition lower_char (c : ascii) : ascii :=
  if isupper c then Ascii.ascii_of_N (code c + 32) else c.
Definition upper_char (c : ascii) : ascii :=
  if islower c then Ascii.ascii_of_N (code c - 32) else c.

Definition is_char (c : ascii) : ascii -> bool := Ascii.eqb c.

(** [bool(s)] *)
Definition truthy (s : string) : bool :=
  match s with EmptyString => false | String _ _ => true end.

Fixpoint map_str (f : ascii -> ascii) (s : string) : string :=
  match s with
  | EmptyString => EmptyString
  | String c s' => String (f c) (map_str f s')
  end.

(** [s.lower()] *)
Definition lower : string -> string := map_str lower_char.

Fixpoint all_chars (p : ascii -> bool) (s : string) : bool :=
  match s with
  | EmptyString => true
  | String c s' => p c && all_chars p s'
  end.

(** [s.lstrip(chars)], [s.rstrip(chars)], [s.strip(chars)]; the character
    set is given as a predicate. *)
Fixpoint lstrip (p : ascii -> bool) (s : string) : string :=
  match s with
  | EmptyString => EmptyString
  | String c s' => if p c then lstrip p s' else s
  end.

Fixpoint rstrip (p : ascii -> bool) (s : string) : string :=
  match s with
  | EmptyString => EmptyString
  | String c s' =>
      match rstrip p s' with
      | EmptyString => if p c then EmptyString else String c EmptyString
      | r => String c r
      end
  end.

Definition strip (p : ascii -> bool) (s : string) : string :=
  rstrip p (lstrip p s).

(** [s.startswith(p)] *)
Definition startswith (p s : string) : bool := String.prefix p s.

(** [sub in s] *)
Fixpoint contains (sub s : string) : bool :=
  String.prefix sub s ||
  match s with
  | EmptyString => false
  | String _ s' => contains sub s'
  end.

(** [s.endswith(suf)] *)
Fixpoint endswith (suf s : string) : bool :=
  String.eqb s suf ||
  match s with
  | EmptyString => false
  | String _ s' => endswith suf s'
  end.

Fixpoint take (n : nat) (s : string) {struct s} : string :=
  match n, s with
  | S k, String c s' => String c (take k s')
  | _, _ => EmptyString
  end.

Fixpoint drop (n : nat) (s : string) {struct s} : string :=
  match n, s with
  | S k, String _ s' => drop k s'
  | _, _ => s
  end.

(** The text before the first character satisfying [p], and the rest. *)
Fixpoint span_until (p : ascii -> bool) (s : string) : string * string :=
  match s with
  | EmptyString => (EmptyString, EmptyString)
  | String c s' =>
      if p c then (EmptyString, s)
      else prod_map (String c) id (span_until p s')
  end.

(** [s.find(c)] for a one-character [c]; [None] stands for [-1]. *)
Fixpoint find (c : ascii) (s : string) : option nat :=
  match s with
  | EmptyString => None
  | String a s' => if Ascii.eqb a c then Some O else S <$> find c s'
  end.

(** [s.split(c, 1)] when [c in s]: the text before and after the first [c]. *)
Fixpoint partition (c : ascii) (s : string) : option (string * string) :=
  match s with
  | EmptyString => None
  | String a s' =>
      if Ascii.eqb a c then Some (EmptyString, s')
      else prod_map (String a) id <$> partition c s'
  end.

(** [s.rpartition(c)[2]]: the text after the last [c], all of [s] without. *)
Fixpoint after_last (c : ascii) (s : string) : string :=
  match s with
  | EmptyString => EmptyString
  | String a s' =>
      if Ascii.eqb a c && negb (contains (String c EmptyString) s')
      then s'
      else if contains (String c EmptyString) s then after_last c s' else s
  end.

(** [s.split(c)] for a one-character separator: never the empty list. *)
Fixpoint split (c : ascii) (s : string) : list string :=
  match s with
  | EmptyString => [EmptyString]
  | String a s' =>
      if Ascii.eqb a c then EmptyString :: split c s'
      else match split c s' with
           | h :: t => String a h :: t
           | [] => [String a EmptyString]
           end
  end.

(** [s.split()]: the maximal runs of characters that are not white space.
    [cur] is the run being read, reversed. *)
Fixpoint words_go (cur : list ascii) (s : string) : list string :=
  let flush :=
    match cur with
    | [] => []
    | _ => [String.string_of_list_ascii (rev cur)]
    end in
  match s with
  | EmptyString => flush
  | String c s' =>
      if isspace c then flush ++ words_go [] s' else words_go (c :: cur) s'
  end.

Definition words : string -> list string := words_go [].

(** [sep.join(l)] *)
Fixpoint join (sep : string) (l : list string) : string :=
  match l with
  | [] => EmptyString
  | [x] => x
  | x :: l' => x +:+ sep +:+ join sep l'
  end.

(** [s.replace(old, new)] for a non-empty [old]: occurrences are replaced
    from the left and do not overlap. [skip] counts the characters of an
    occurrence that is being consumed. *)
Fixpoint replace_go (old new : string) (skip : nat) (s : string) : string :=
  match s with
  | EmptyString => EmptyString
  | String c s' =>
      match skip with
      | S k => replace_go old new k s'
      | O =>
          if String.prefix old s
          then new +:+ replace_go old new (String.length old - 1)%nat s'
          else String c (replace_go old new O s')
      end
  end.

Definition replace (old new s : string) : string := replace_go old new O s.

(** [s.title()]: a cased character is upper-cased when it starts a run of
    cased characters and lower-cased otherwise. *)
Fixpoint title_go (prev_cased : bool) (s : string) : string :=
  match s with
  | EmptyString => EmptyString
  | String c s' =>
      if islower c then
        String (if prev_cased then c else upper_char c) (title_go true s')
      else if isupper c then
        String (if prev_cased then lower_char c else c) (title_go true s')
      else String c (title_go false s')
  end.

Definition title : string -> string := title_go false.

(** [str(n)] for an integer. *)
Definition str_of_Z (z : Z) : string := NilZero.string_of_int (Z.to_int z).

Fixpoint zeros (n : nat) : string :=
  match n with O => EmptyString | S k => String "0" (zeros k) end.

(** [f"{z:03d}"]: zero padding to width three, the sign counted in. *)
Definition fmt_03d (z : Z) : string :=
  if z <? 0 then
    let d := str_of_Z (- z) in
    String "-" (zeros (2 - String.length d) +:+ d)
  else
    let d := str_of_Z z in
    zeros (3 - String.length d) +:+ d.

(** Digits of an [int] literal with single underscores between digits, the
    accumulator holding the value read so far. [after_digit] tells whether
    an underscore may come next. *)
Fixpoint int_digits (acc : Z) (after_digit : bool) (s : string) : option Z :=
  match s with
  | EmptyString => if after_digit then Some acc else None
  | String c s' =>
      if isdigit c then
        int_digits (10 * acc + Z.of_N (code c - 48)) true s'
      else if Ascii.eqb c "_" && after_digit then
        int_digits acc false s'
      else None
  end.

(** [int(s)]: white space around, an optional sign, then the digits;
    [None] is the [ValueError]. *)
Definition int (s : string) : option Z :=
  match strip isspace s with
  | String "-" d => Z.opp <$> int_digits 0 false d
  | String "+" d => int_digits 0 false d
  | d => int_digits 0 false d
  end.

End PyStr.

(** ** [urllib.parse]: [urlparse] and [urljoin] as the sources call them

    Modelled after CPython 3.11 for ASCII text. The validation of a bracketed
    host ([_check_bracketed_host], which rests on the [ipaddress] module) is
    the one part left open: it is a parameter of the development, so every
    result holds whichever hosts it accepts. *)

Module UrlParse.
Import PyStr.

Class BracketedHost := bracketed_host_ok : string -> bool.

Record ParseResult := mkParse {
  scheme : string;
  netloc : string;
  path : string;
  params : string;
  query : string;
  fragment : string
}.

Definition uses_relative : list string :=
  [""; "ftp"; "http"; "gopher"; "nntp"; "imap"; "wais"; "file"; "https";
   "shttp"; "mms"; "prospero"; "rtsp"; "rtspu"; "sftp"; "svn"; "svn+ssh";
   "ws"; "wss"].

Definition uses_netloc : list string :=
  [""; "ftp"; "http"; "gopher"; "nntp"; "telnet"; "imap"; "wais"; "file";
   "mms"; "https"; "shttp"; "snews"; "prospero"; "rtsp"; "rtspu"; "rsync";
   "svn"; "svn+ssh"; "sftp"; "nfs"; "git"; "git+ssh"; "ws"; "wss"].

Definition uses_params : list string :=
  [""; "ftp"; "hdl"; "prospero"; "http"; "imap"; "https"; "shttp"; "rtsp";
   "rtspu"; "sip"; "sips"; "mms"; "sftp"; "tel"].

Definition mem (s : string) (l : list string) : bool := bool_decide (s ∈ l).

Definition scheme_char (c : ascii) : bool :=
  isalpha c || isdigit c || is_char "+" c || is_char "-" c || is_char "." c.

(** [_WHATWG_C0_CONTROL_OR_SPACE] *)
Definition c0_or_space (c : ascii) : bool := (code c <=? 32)%N.

(** [_UNSAFE_URL_BYTES_TO_REMOVE]: TAB, CR, LF *)
Definition unsafe_byte (c : ascii) : bool :=
  is_char "009" c || is_char "013" c || is_char "010" c.

Fixpoint remove_chars (p : ascii -> bool) (s : string) : string :=
  match s with
  | EmptyString => EmptyString
  | String c s' =>
      if p c then remove_chars p s' else String c (remove_chars p s')
  end.

(** [_splitnetloc(url, 2)] *)
Definition splitnetloc (url : string) : string * string :=
  span_until (fun c => is_char "/" c || is_char "?" c || is_char "#" c)
             (drop 2 url).

(** [s.partition(c)]: (before, found, after) *)
Definition py_partition (c : ascii) (s : string) : string * bool * string :=
  match partition c s with
  | Some (a, b) => (a, true, b)
  | None => (s, false, EmptyString)
  end.

(** [_check_bracketed_netloc]: [false] where it raises. *)
Definition check_bracketed_netloc `{BracketedHost} (nl : string) : bool :=
  let hostname_and_port := after_last "@" nl in
  let '(before_bracket, have_open_br, bracketed) :=
    py_partition "[" hostname_and_port in
  if have_open_br then
    if truthy before_bracket then false
    else
      let '(hostname, _, port) := py_partition "]" bracketed in
      if truthy port && negb (startswith ":" port) then false
      else bracketed_host_ok hostname
  else
    let '(hostname, _, _) := py_partition ":" hostname_and_port in
    bracketed_host_ok hostname.

(** The two bracket checks of [urlsplit]: [false] where it raises
    [ValueError]. *)
Definition netloc_ok `{BracketedHost} (nl : string) : bool :=
  let lb := contains "[" nl in
  let rb := contains "]" nl in
  if (lb && negb rb) || (rb && negb lb) then false
  else if lb && rb then check_bracketed_netloc nl
  else true.

(** The scheme prefix of [urlsplit]: the scheme found and the remaining
    text, or the default scheme and the text unchanged. *)
Definition split_scheme (dflt url : string) : string * string :=
  match find ":" url, url with
  | Some (S i), String c0 _ =>
      if isalpha c0 && all_chars scheme_char (take (S i) url)
      then (lower (take (S i) url), drop (S (S i)) url)
      else (dflt, url)
  | _, _ => (dflt, url)
  end.

(** [urlsplit(url, scheme)]: (scheme, netloc, path, query, fragment). *)
Definition urlsplit `{BracketedHost} (url dflt : string)
  : option (string * string * string * string * string) :=
  let url := remove_chars unsafe_byte (lstrip c0_or_space url) in
  let dflt := remove_chars unsafe_byte (strip c0_or_space dflt) in
  let '(sch, url) := split_scheme dflt url in
  let '(nl, url) :=
    if String.eqb (take 2 url) "//" then splitnetloc url
    else (EmptyString, url) in
  if negb (netloc_ok nl) then None
  else
    let '(url, frag) :=
      match partition "#" url with
      | Some (u, f) => (u, f)
      | None => (url, EmptyString)
      end in
    let '(url, qry) :=
      match partition "?" url with
      | Some (u, q) => (u, q)
      | None => (url, EmptyString)
      end in
    Some (sch, nl, url, qry, frag).

(** [_splitparams]: the parameters are cut at the first [;] of the last
    path segment. *)
Definition cut_params (s : string) : string * string :=
  match partition ";" s with
  | Some (u, p) => (u, p)
  | None => (s, EmptyString)
  end.

Fixpoint splitparams (s : string) : string * string :=
  match s with
  | EmptyString => (EmptyString, EmptyString)
  | String c s' =>
      if contains "/" s' then prod_map (String c) id (splitparams s')
      else if is_char "/" c then prod_map (String c) id (cut_params s')
      else cut_params s
  end.

(** [urlparse(url, scheme)] *)
Definition urlparse_with `{BracketedHost} (url dflt : string)
  : option ParseResult :=
  '(sch, nl, url, qry, frag) ← urlsplit url dflt;
  let '(url, prm) :=
    if mem sch uses_params && contains ";" url then splitparams url
    else (url, EmptyString) in
  Some (mkParse sch nl url prm qry frag).

(** [urlparse(url)] *)
Definition urlparse `{BracketedHost} (url : string) : option ParseResult :=
  urlparse_with url EmptyString.

(** [urlunsplit] *)
Definition urlunsplit (sch nl url qry frag : string) : string :=
  let url :=
    if truthy nl ||
       (truthy sch && mem sch uses_netloc &&
        negb (String.eqb (take 2 url) "//"))
    then
      let url :=
        if truthy url && negb (String.eqb (take 1 url) "/")
        then "/" +:+ url else url in
      "//" +:+ nl +:+ url
    else url in
  let url := if truthy sch then sch +:+ ":" +:+ url else url in
  let url := if truthy qry then url +:+ "?" +:+ qry else url in
  if truthy frag then url +:+ "#" +:+ frag else url.

(** [urlunparse] *)
Definition urlunparse (r : ParseResult) : string :=
  let url :=
    if truthy (params r) then path r +:+ ";" +:+ params r else path r in
  urlunsplit (scheme r) (netloc r) url (query r) (fragment r).

(** [segments[1:-1] = filter(None, segments[1:-1])] *)
Definition filter_middle (l : list string) : list string :=
  match l with
  | [] => []
  | x :: r =>
      match r with
      | [] => [x]
      | _ => x :: List.filter truthy (removelast r) ++ [List.last r EmptyString]
      end
  end.

(** The loop of [urljoin] that resolves [.] and [..]; the resolved path is
    kept reversed. *)
Fixpoint resolve (segments rev_resolved : list string) : list string :=
  match segments with
  | [] => rev_resolved
  | seg :: rest =>
      if String.eqb seg ".." then resolve rest (List.tl rev_resolved)
      else if String.eqb seg "." then resolve rest rev_resolved
      else resolve rest (seg :: rev_resolved)
  end.

(** [urljoin(base, url)] *)
Definition urljoin `{BracketedHost} (base url : string) : option string :=
  if negb (truthy base) then Some url
  else if negb (truthy url) then Some base
  else
    b ← urlparse_with base EmptyString;
    u ← urlparse_with url (scheme b);
    if negb (String.eqb (scheme u) (scheme b)) ||
       negb (mem (scheme u) uses_relative)
    then Some url
    else if mem (scheme u) uses_netloc && truthy (netloc u)
    then Some (urlunparse u)
    else
      let nl := if mem (scheme u) uses_netloc then netloc b else netloc u in
      if negb (truthy (path u)) && negb (truthy (params u)) then
        let qry := if truthy (query u) then query u else query b in
        Some (urlunparse
                (mkParse (scheme u) nl (path b) (params b) qry (fragment u)))
      else
        let base_parts :=
          let p := split "/" (path b) in
          if truthy (List.last p EmptyString) then removelast p else p in
        let segments :=
          if String.eqb (take 1 (path u)) "/" then split "/" (path u)
          else filter_middle (base_parts ++ split "/" (path u)) in
        let resolved := rev (resolve segments []) in
        let last_seg := List.last segments EmptyString in
        let resolved :=
          if String.eqb last_seg "." || String.eqb last_seg ".."
          then resolved ++ [EmptyString] else resolved in
        let joined := join "/" resolved in
        Some (urlunparse
                (mkParse (scheme u) nl
                         (if truthy joined then joined else "/")
                         (params u) (query u) (fragment u))).

(** CPython before 3.11.4 performs no validation of a bracketed host. *)
Definition any_bracketed_host : BracketedHost := fun _ => true.

End UrlParse.

(** ** [src/models.py] *)

Module PageData.
Import PyStr UrlParse.

(** [crawled_at], a time stamp, is left out. *)
Record t := mk {
  url : string;
  title : string;
  html_content : string;
  status_code : Z;
  links : list string;
  final_url : option string
}.

(** The constructor with [__post_init__]; [None] is the [ValueError]. *)
Definition new (url title html_content : string) (status_code : Z)
    (links : list string) (final_url : option string) : option t :=
  if negb (truthy url) then None
  else if negb (truthy html_content) && (status_code =? 200) then None
  else Some (mk (rstrip (is_char "/") url) title html_content status_code
                links final_url).

Definition is_valid (p : t) : bool :=
  truthy (url p) && (status_code p =? 200) &&
  truthy (strip isspace (html_content p)).

End PageData.

Module PageContent.
Import PyStr UrlParse.

Record t := mk {
  url : string;
  title : string;
  content_html : string;
  text_content : string;
  images : list string;
  order_key : string;
  final_url : option string
}.

(** [f"{i:03d}_{clean_part}"] *)
Definition order_part (i : nat) (clean_part : string) : string :=
  fmt_03d (Z.of_nat i) +:+ "_" +:+ clean_part.

Definition _generate_order_key `{BracketedHost} (url : string)
  : option string :=
  parsed ← urlparse url;
  let path := strip (is_char "/") (path parsed) in
  if negb (truthy path) || mem path ["index"; "index.html"]
  then Some "000_index"
  else
    let parts := split "/" path in
    Some (join "_"
            (imap (fun i part =>
                     order_part i (replace "-" "_" (replace ".html" "" part)))
                  parts)).

Definition _extract_title_from_url `{BracketedHost} (url : string)
  : option string :=
  parsed ← urlparse url;
  let path := strip (is_char "/") (path parsed) in
  if negb (truthy path) then Some "Home"
  else
    let last_part := List.last (split "/" path) EmptyString in
    Some (PyStr.title (replace "_" " " (replace "-" " " last_part))).

(** The constructor with [__post_init__]; [None] is the [ValueError] that
    [urlparse] raises. *)
Definition new `{BracketedHost} (url title content_html text_content : string)
    (images : list string) (order_key : string) (final_url : option string)
  : option t :=
  order_key ←
    (if negb (truthy order_key) then _generate_order_key url
     else Some order_key);
  title ←
    (if negb (truthy title) then _extract_title_from_url url
     else Some title);
  Some (mk url title content_html text_content images order_key final_url).

Definition is_valid (p : t) : bool :=
  truthy (url p) && truthy (title p) &&
  (truthy (content_html p) || truthy (text_content p)).

End PageContent.

(** ** [src/url_manager.py] *)

Module URLManager.
Import PyStr UrlParse.

(** [self._stats] *)
Record Stats := mkStats {
  total_found : Z;
  visited : Z;
  failed : Z;
  skipped : Z;
  duplicates : Z
}.

Record t := mk {
  base_url : string;
  max_pages : option Z;
  _urls_to_visit : list string;
  _visited_urls : gset string;
  _failed_urls : gset string;
  _skipped_urls : gset string;
  _stats : Stats;
  domain : string
}.

Definition set_queue (q : list string) (m : t) : t :=
  mk (base_url m) (max_pages m) q (_visited_urls m) (_failed_urls m)
     (_skipped_urls m) (_stats m) (domain m).
Definition set_visited (v : gset string) (m : t) : t :=
  mk (base_url m) (max_pages m) (_urls_to_visit m) v (_failed_urls m)
     (_skipped_urls m) (_stats m) (domain m).
Definition set_failed (f : gset string) (m : t) : t :=
  mk (base_url m) (max_pages m) (_urls_to_visit m) (_visited_urls m) f
     (_skipped_urls m) (_stats m) (domain m).
Definition set_skipped (k : gset string) (m : t) : t :=
  mk (base_url m) (max_pages m) (_urls_to_visit m) (_visited_urls m)
     (_failed_urls m) k (_stats m) (domain m).
Definition set_stats (s : Stats) (m : t) : t :=
  mk (base_url m) (max_pages m) (_urls_to_visit m) (_visited_urls m)
     (_failed_urls m) (_skipped_urls m) s (domain m).

Definition incr_total_found (s : Stats) : Stats :=
  mkStats (total_found s + 1) (visited s) (failed s) (skipped s) (duplicates s).
Definition incr_visited (s : Stats) : Stats :=
  mkStats (total_found s) (visited s + 1) (failed s) (skipped s) (duplicates s).
Definition incr_failed (s : Stats) : Stats :=
  mkStats (total_found s) (visited s) (failed s + 1) (skipped s) (duplicates s).
Definition incr_skipped (s : Stats) : Stats :=
  mkStats (total_found s) (visited s) (failed s) (skipped s + 1) (duplicates s).
Definition incr_duplicates (s : Stats) : Stats :=
  mkStats (total_found s) (visited s) (failed s) (skipped s) (duplicates s + 1).

(** [_normalize_url]; [None] is the [ValueError] of [urlparse]. *)
Definition _normalize_url `{BracketedHost} (self : t) (url : string)
  : option string :=
  if negb (truthy url) then Some url
  else
    url ←
      (if startswith "/" url then urljoin (base_url self) url
       else if negb (startswith "http://" url || startswith "https://" url)
       then urljoin (base_url self) url
       else Some url);
    parsed ← urlparse url;
    let normalized := scheme parsed +:+ "://" +:+ netloc parsed +:+ path parsed in
    let normalized :=
      if truthy (query parsed) then normalized +:+ "?" +:+ query parsed
      else normalized in
    Some (if endswith "/" normalized && (1 <? String.length (path parsed))%nat
          then rstrip (is_char "/") normalized
          else normalized).

Definition skip_extensions : list string :=
  [".pdf"; ".jpg"; ".jpeg"; ".png"; ".gif"; ".css"; ".js"; ".xml"; ".zip"].

Definition skip_paths : list string :=
  ["/api/"; "/admin/"; "/login/"; "/logout/"; "/search/"].

(** [should_crawl]: an exception of [urlparse] is caught and gives
    [False]. *)
Definition should_crawl `{BracketedHost} (self : t) (url : string) : bool :=
  if negb (truthy url) then false
  else
    match urlparse url with
    | None => false
    | Some parsed_url =>
        if negb (truthy (scheme parsed_url)) || negb (truthy (netloc parsed_url))
        then false
        else if negb (String.eqb (netloc parsed_url) (domain self)) then false
        else if truthy (fragment parsed_url) && negb (truthy (path parsed_url))
        then false
        else
          let path := lower (path parsed_url) in
          if existsb (fun ext => endswith ext path) skip_extensions then false
          else if existsb (fun skip_path => contains skip_path path) skip_paths
          then false
          else true
    end.

(** [add_url]: the value returned and the manager afterwards; [None] is an
    exception, raised before anything is changed. *)
Definition add_url `{BracketedHost} (self : t) (url : string)
  : option (bool * t) :=
  if negb (truthy url) then Some (false, self)
  else
    normalized_url ← _normalize_url self url;
    if negb (should_crawl self normalized_url) then Some (false, self)
    else if bool_decide (normalized_url ∈ _visited_urls self) ||
            bool_decide (normalized_url ∈ _urls_to_visit self)
    then Some (false, set_stats (incr_duplicates (_stats self)) self)
    else if match max_pages self with
            | Some cap => negb (cap =? 0) && (cap <=? total_found (_stats self))
            | None => false
            end
    then Some (false,
               set_stats (incr_skipped (_stats self))
                 (set_skipped ({[normalized_url]} ∪ _skipped_urls self) self))
    else Some (true,
               set_stats (incr_total_found (_stats self))
                 (set_queue (_urls_to_visit self ++ [normalized_url]) self)).

(** [get_next_url] *)
Definition get_next_url (self : t) : option string * t :=
  match _urls_to_visit self with
  | [] => (None, self)
  | url :: rest => (Some url, set_queue rest self)
  end.

(** [mark_visited] *)
Definition mark_visited `{BracketedHost} (self : t) (url : string) : option t :=
  normalized_url ← _normalize_url self url;
  Some (set_stats (incr_visited (_stats self))
          (set_visited ({[normalized_url]} ∪ _visited_urls self) self)).

(** [mark_failed] *)
Definition mark_failed `{BracketedHost} (self : t) (url : string) : option t :=
  normalized_url ← _normalize_url self url;
  Some (set_stats (incr_failed (_stats self))
          (set_failed ({[normalized_url]} ∪ _failed_urls self) self)).

(** [is_visited] *)
Definition is_visited `{BracketedHost} (self : t) (url : string) : option bool :=
  normalized_url ← _normalize_url self url;
  Some (bool_decide (normalized_url ∈ _visited_urls self)).

(** [has_urls] *)
Definition has_urls (self : t) : bool :=
  bool_decide (0 < length (_urls_to_visit self))%nat.

(** [__init__]: the base URL is queued at once. *)
Definition new `{BracketedHost} (base_url : string) (max_pages : option Z)
  : option t :=
  let base_url := rstrip (is_char "/") base_url in
  parsed ← urlparse base_url;
  let self :=
    mk base_url max_pages [] ∅ ∅ ∅ (mkStats 0 0 0 0 0) (netloc parsed) in
  snd <$> add_url self base_url.

(** The calls a client makes on a manager. *)
Inductive call :=
| AddUrl (url : string)
| GetNextUrl
| MarkVisited (url : string)
| MarkFailed (url : string).

(** The manager after a call; [None] where the call raises. *)
Definition exec `{BracketedHost} (self : t) (c : call) : option t :=
  match c with
  | AddUrl url => snd <$> add_url self url
  | GetNextUrl => Some (snd (get_next_url self))
  | MarkVisited url => mark_visited self url
  | MarkFailed url => mark_failed self url
  end.

(** A sequence of calls, each on the manager the previous one left. *)
Fixpoint run `{BracketedHost} (self : t) (cs : list call) : option t :=
  match cs with
  | [] => Some self
  | c :: cs' => self' ← exec self c; run self' cs'
  end.

(** The managers a client can reach: a freshly built one, then any calls
    that return. *)
Inductive reachable `{BracketedHost} : t -> Prop :=
| reach_new base_url max_pages self :
    new base_url max_pages = Some self -> reachable self
| reach_exec self c self' :
    reachable self -> exec self c = Some self' -> reachable self'.

End URLManager.

(** ** [src/page_sorter.py] *)

Module PageSorter.
Import PyStr UrlParse.

(** The loop of [_clean_path_part] that looks for the first character that
    is neither a digit nor an underscore: [(num_part, text_part)]. Without
    such a character the loop ends without [break]. *)
Definition numeric_prefix (clean_part : string) : string * string :=
  match span_until (fun c => negb (isdigit c) && negb (is_char "_" c))
                   clean_part with
  | (_, EmptyString) => (EmptyString, clean_part)
  | (before, rest) => (rstrip (is_char "_") before, lstrip (is_char "_") rest)
  end.

Definition starts_with_digit (s : string) : bool :=
  match s with
  | EmptyString => false
  | String c _ => isdigit c
  end.

Definition _clean_path_part (part : string) : string :=
  if negb (truthy part) then "empty"
  else
    let clean_part := replace ".htm" "" (replace ".html" "" part) in
    let clean_part := replace "." "_" (replace "-" "_" clean_part) in
    let clean_part :=
      if starts_with_digit clean_part then
        let '(num_part, text_part) := numeric_prefix clean_part in
        if truthy num_part then
          match int num_part with
          | Some num =>
              if truthy text_part then fmt_03d num +:+ "_" +:+ text_part
              else fmt_03d num
          | None => clean_part
          end
        else clean_part
      else clean_part in
    if truthy clean_part then clean_part else "unnamed".

Definition priority_pages : list (string * string) :=
  [("getting-started", "001_getting_started");
   ("quickstart", "001_quickstart");
   ("introduction", "002_introduction");
   ("overview", "003_overview");
   ("installation", "004_installation");
   ("setup", "005_setup")].

(** [priority_pages[path]], for a path in the table *)
Fixpoint lookup_page (path : string) (table : list (string * string))
  : option string :=
  match table with
  | [] => None
  | (slug, key) :: rest =>
      if String.eqb path slug then Some key else lookup_page path rest
  end.

(** The key of a path, the body of the [try] after [urlparse]. *)
Definition key_of_path (path : string) : string :=
  if negb (truthy path) || mem path ["index"; "index.html"; "home"]
  then "000_index"
  else
    match lookup_page path priority_pages with
    | Some key => key
    | None =>
        join "_"
          (imap (fun i part =>
                   fmt_03d (Z.of_nat i) +:+ "_" +:+ _clean_path_part part)
                (split "/" path))
    end.

(** [generate_order_key]: the [ValueError] of [urlparse] is caught and
    gives the fallback key. *)
Definition generate_order_key `{BracketedHost} (url : string) : string :=
  match urlparse url with
  | Some parsed_url => key_of_path (strip (is_char "/") (path parsed_url))
  | None => "999_" +:+ url
  end.

(** [sorted(pages, key=lambda p: p.order_key)]: the sort is stable, keys
    compare as strings. *)
Fixpoint insert_page (p : PageContent.t) (sorted : list PageContent.t)
  : list PageContent.t :=
  match sorted with
  | [] => [p]
  | q :: rest =>
      if String.leb (PageContent.order_key p) (PageContent.order_key q)
      then p :: sorted
      else q :: insert_page p rest
  end.

Definition sorted_by_key (pages : list PageContent.t) : list PageContent.t :=
  foldr insert_page [] pages.

Definition fill_order_key `{BracketedHost} (page : PageContent.t)
  : PageContent.t :=
  if negb (truthy (PageContent.order_key page)) then
    PageContent.mk (PageContent.url page) (PageContent.title page)
      (PageContent.content_html page) (PageContent.text_content page)
      (PageContent.images page) (generate_order_key (PageContent.url page))
      (PageContent.final_url page)
  else page.

(** [sort_pages] *)
Definition sort_pages `{BracketedHost} (pages : list PageContent.t)
  : list PageContent.t :=
  sorted_by_key (fill_order_key <$> pages).

End PageSorter.

(** ** [src/pdf_generator.py]: de-duplication *)

Module PDFGenerator.
Import PyStr.

(** [page.final_url if page.final_url else page.url]: a final URL that is
    [None] or empty counts as absent. *)
Definition check_url (page : PageContent.t) : string :=
  match PageContent.final_url page with
  | Some f => if truthy f then f else PageContent.url page
  | None => PageContent.url page
  end.

(** The loop of [_deduplicate_pages], with [seen] and the pages still to
    be read; the pages kept come out in order. *)
Fixpoint dedup_go (seen : gset string) (pages : list PageContent.t)
  : list PageContent.t :=
  match pages with
  | [] => []
  | page :: rest =>
      if bool_decide (check_url page ∈ seen) then dedup_go seen rest
      else page :: dedup_go ({[check_url page]} ∪ seen) rest
  end.

Definition _deduplicate_pages (pages : list PageContent.t)
  : list PageContent.t :=
  dedup_go ∅ pages.

(** The first two steps of [generate_pdf]: de-duplicate, then sort. *)
Definition assemble_pages `{UrlParse.BracketedHost}
    (pages : list PageContent.t) : list PageContent.t :=
  PageSorter.sort_pages (_deduplicate_pages pages).

End PDFGenerator.

(** ** [src/content_parser.py]: the image classifier and [parse_page] *)

Module ContentParser.
Import PyStr UrlParse.

(** The value of a [class] attribute: the HTML parser gives the list of
    class names, a caller that sets the attribute may give one string. *)
Inductive class_value :=
| ClassList (names : list string)
| ClassStr (text : string).

(** A [bs4] element as the classifier reads it: its name, its
    single-valued attributes and its [class]. *)
Record Tag := mkTag {
  name : string;
  attrs : gmap string string;
  class_attr : option class_value
}.

(** An [<img>] in its tree: the element and its ancestors, the parent
    first, the document object last. *)
Record Img := mkImg {
  img_tag : Tag;
  img_parents : list Tag
}.

(** [tag.get(key)] *)
Definition get (tag : Tag) (key : string) : option string := attrs tag !! key.

(** [tag.get(key, '')] *)
Definition get_or_empty (tag : Tag) (key : string) : string :=
  default EmptyString (get tag key).

(** [tag.get('class', [])], a string split into its words *)
Definition css_classes (tag : Tag) : list string :=
  match class_attr tag with
  | Some (ClassList names) => names
  | Some (ClassStr text) => words text
  | None => []
  end.

(** [any(pattern in class_name.lower() for pattern in patterns)] for some
    class name of the list *)
Definition class_matches (patterns classes : list string) : bool :=
  existsb (fun class_name =>
             existsb (fun pattern => contains pattern (lower class_name))
                     patterns)
          classes.

(** [w, h = int(width), int(height)] under [if width and height], the
    [ValueError] caught: the two numbers when both attributes are there,
    non-empty and integers. *)
Definition dimensions (img : Tag) : option (Z * Z) :=
  match get img "width", get img "height" with
  | Some width, Some height =>
      if truthy width && truthy height then
        w ← int width; h ← int height; Some (w, h)
      else None
  | _, _ => None
  end.

Definition doc_image_patterns : list string :=
  ["mintlify.s3"; "/images/"; "/screenshots/"; "/docs/"; "/assets/";
   "documentation"; "tutorial"; "guide"; "example"; "get-started"].

Definition content_patterns : list string :=
  ["content"; "article"; "main"; "documentation"; "frame"].

(** The walk up the tree of [_is_documentation_image], which stops at
    [body]. *)
Fixpoint parent_in_content_area (parents : list Tag) : bool :=
  match parents with
  | [] => false
  | parent :: rest =>
      if String.eqb (name parent) "body" then false
      else class_matches content_patterns (css_classes parent) ||
           parent_in_content_area rest
  end.

(** [img.find_parent(attrs={'data-name': 'frame'})] finds an element *)
Definition in_frame (img : Img) : bool :=
  existsb (fun parent => bool_decide (get parent "data-name" = Some "frame"))
          (img_parents img).

Definition _is_documentation_image (img : Img) (src : string) : bool :=
  if contains "codebase-indexing" (lower src) then true
  else if in_frame img then true
  else
    let alt_text := strip isspace (get_or_empty (img_tag img) "alt") in
    if truthy alt_text && (10 <? String.length alt_text)%nat then true
    else
      let src_lower := lower src in
      if contains "app-logo.svg" src_lower then false
      else if existsb (fun pattern => contains pattern src_lower)
                      doc_image_patterns
      then true
      else if match dimensions (img_tag img) with
              | Some (w, h) => (100 <? w) || (100 <? h)
              | None => false
              end
      then true
      else parent_in_content_area (img_parents img).

Definition explicit_icon_patterns : list string := ["icon"; "favicon"].

Definition explicit_icon_url_patterns : list string :=
  ["favicon"; "/icons/"; "icon."; "app-logo.svg"; "data:image/svg+xml"].

Definition _is_ui_icon (img : Img) (src : string) : bool :=
  if _is_documentation_image img src then false
  else if match dimensions (img_tag img) with
          | Some (w, h) => (w <=? 24) && (h <=? 24)
          | None => false
          end
  then true
  else if class_matches explicit_icon_patterns (css_classes (img_tag img))
  then true
  else if existsb (fun pattern => contains pattern (lower src))
                  explicit_icon_url_patterns
  then true
  else mem (lower (get_or_empty (img_tag img) "alt")) ["icon"; "favicon"].

(** The source URL matches one of the documentation patterns. *)
Definition matches_doc_pattern (src : string) : bool :=
  existsb (fun pattern => contains pattern (lower src)) doc_image_patterns.

(** An exception carries its message, [str(e)]. *)
Inductive Exn (A : Type) :=
| Ok (a : A)
| Raise (msg : string).
Arguments Ok {A} a.
Arguments Raise {A} msg.

Definition of_option {A} (msg : string) (o : option A) : Exn A :=
  match o with Some a => Ok a | None => Raise msg end.

(** The text of a [ValueError] from [urlparse]; no page that is built
    shows it, as the constructor raises again in every handler. *)
Definition url_error : string := "Invalid IPv6 URL".

Section ParsePage.
Context `{BracketedHost}.

(** The stages of the [try] body up to the construction of the page, on
    the [bs4] tree: parsing, [remove_unwanted_elements],
    [extract_main_content], [process_images], [process_youtube_links],
    [_extract_text_content], [_extract_image_urls], [str]. They give
    [(content_html, text_content, image_urls)] or raise. *)
Variable pipeline : PageData.t -> Exn (string * string * list string).

(** [BeautifulSoup(html, 'html.parser').get_text(strip=True)] *)
Variable basic_text_of : string -> Exn string.

Definition fallback_title (page_data : PageData.t) : string :=
  if truthy (PageData.title page_data) then PageData.title page_data
  else "Error Page".

(** The page of the first handler, from the text preview. *)
Definition preview_page (page_data : PageData.t) (basic_text : string)
  : option PageContent.t :=
  PageContent.new (PageData.url page_data) (fallback_title page_data)
    ("<p>Content parsing failed. Raw text preview:</p><pre>" +:+
     basic_text +:+ "</pre>")
    basic_text [] EmptyString None.

(** The page of the last handler, from the message of the exception. *)
Definition error_page (page_data : PageData.t) (e : string)
  : option PageContent.t :=
  PageContent.new (PageData.url page_data) (fallback_title page_data)
    ("<p>Error parsing content: " +:+ e +:+ "</p>")
    ("Error parsing content: " +:+ e) [] EmptyString None.

Definition try_body (page_data : PageData.t) : Exn PageContent.t :=
  match pipeline page_data with
  | Raise e => Raise e
  | Ok (content_html, text_content, image_urls) =>
      of_option url_error
        (PageContent.new (PageData.url page_data) (PageData.title page_data)
           content_html text_content image_urls EmptyString
           (PageData.final_url page_data))
  end.

Definition try_fallback (page_data : PageData.t) : Exn PageContent.t :=
  match basic_text_of (PageData.html_content page_data) with
  | Raise e => Raise e
  | Ok text =>
      of_option url_error (preview_page page_data (take 1000 text))
  end.

(** [parse_page]: [Raise] is an exception that leaves the method. *)
Definition parse_page (page_data : PageData.t) : Exn PageContent.t :=
  match try_body page_data with
  | Ok page_content => Ok page_content
  | Raise e =>
      match try_fallback page_data with
      | Ok page_content => Ok page_content
      | Raise _ => of_option url_error (error_page page_data e)
      end
  end.

End ParsePage.

End ContentParser.

(** ** [src/url_manager.py]: [clear] *)

Module URLManagerReset.
Import URLManager.

(** [clear]: the queue, the three sets and the statistics are emptied; the
    base URL, the cap and the domain stay, and nothing is queued. *)
Definition clear (self : t) : t :=
  mk (base_url self) (max_pages self) [] ∅ ∅ ∅ (mkStats 0 0 0 0 0)
     (domain self).

End URLManagerReset.

(** ** [src/selenium_crawler.py]: [crawl_all] *)

Module SeleniumCrawler.
Import PyStr UrlParse URLManager.

(** How a call of [crawl_all] ends: it returns the pages and leaves the
    manager changed, an exception of the manager leaves it, or the model
    runs out of the steps it was given. *)
Inductive outcome :=
| Returned (crawled_pages : list PageData.t) (url_manager : t)
| Raised
| Unfinished.

(** [self.config.MAX_PAGES and len(crawled_pages) >= self.config.MAX_PAGES] *)
Definition limit_reached (MAX_PAGES : option Z) (crawled_pages : list PageData.t)
  : bool :=
  match MAX_PAGES with
  | Some m => negb (m =? 0) && (m <=? Z.of_nat (length crawled_pages))
  | None => false
  end.

(** The calls on the manager after a valid page was fetched from [url]: the
    URL is marked visited, the final URL too when it differs, then every
    link is added. *)
Definition calls_after_fetch (url : string) (page_data : PageData.t)
  : list call :=
  MarkVisited url ::
  match PageData.final_url page_data with
  | Some final_url =>
      if truthy final_url && negb (String.eqb final_url url)
      then [MarkVisited final_url] else []
  | None => []
  end ++
  (AddUrl <$> PageData.links page_data).

Section CrawlAll.
Context `{BracketedHost}.

(** [crawl_page], which drives the browser: the page fetched by the
    [n]-th call, [None] when the fetch fails. *)
Variable crawl_page : nat -> string -> option PageData.t.

(** [self.config.MAX_PAGES] *)
Variable MAX_PAGES : option Z.

(** The [while] loop of [crawl_all], for at most [steps] iterations; [n]
    counts the fetches made. The pauses ([time.sleep]) are left out. *)
Fixpoint crawl_loop (steps n : nat) (url_manager : t)
    (crawled_pages : list PageData.t) : outcome :=
  match steps with
  | O => Unfinished
  | S steps =>
      if negb (has_urls url_manager) then Returned crawled_pages url_manager
      else if limit_reached MAX_PAGES crawled_pages
      then Returned crawled_pages url_manager
      else
        match get_next_url url_manager with
        | (None, url_manager) => Returned crawled_pages url_manager
        | (Some url, url_manager) =>
            if negb (truthy url) then Returned crawled_pages url_manager
            else
              match crawl_page n url with
              | Some page_data =>
                  if PageData.is_valid page_data then
                    match run url_manager (calls_after_fetch url page_data) with
                    | Some url_manager =>
                        crawl_loop steps (S n) url_manager
                                   (crawled_pages ++ [page_data])
                    | None => Raised
                    end
                  else crawl_loop steps (S n) url_manager crawled_pages
              | None => crawl_loop steps (S n) url_manager crawled_pages
              end
        end
  end.

(** [crawl_all] *)
Definition crawl_all (steps : nat) (url_manager : t) : outcome :=
  crawl_loop steps O url_manager [].

End CrawlAll.

End SeleniumCrawler.

(** ** [src/page_sorter.py]: [group_pages_by_section] *)

Module PageGroups.
Import PyStr UrlParse.

(** The name of the section of a page: ["Home"] for the root, the first
    path segment made readable otherwise, ["Other"] when [urlparse]
    raises. *)
Definition section_of `{BracketedHost} (page : PageContent.t) : string :=
  match urlparse (PageContent.url page) with
  | Some parsed_url =>
      let path := strip (is_char "/") (path parsed_url) in
      if negb (truthy path) then "Home"
      else
        PyStr.title
          (replace "_" " "
             (replace "-" " " (List.hd EmptyString (split "/" path))))
  | None => "Other"
  end.

(** [sections[section].append(page)], with a new list for a new name; the
    dictionary keeps its keys in the order of insertion. *)
Fixpoint append_to_section (section : string) (page : PageContent.t)
    (sections : list (string * list PageContent.t))
  : list (string * list PageContent.t) :=
  match sections with
  | [] => [(section, [page])]
  | (name, pages) :: rest =>
      if String.eqb name section then (name, pages ++ [page]) :: rest
      else (name, pages) :: append_to_section section page rest
  end.

(** [group_pages_by_section] *)
Definition group_pages_by_section `{BracketedHost} (pages : list PageContent.t)
  : list (string * list PageContent.t) :=
  prod_map id PageSorter.sorted_by_key <$>
    foldl (fun sections page =>
             append_to_section (section_of page) page sections)
          [] pages.

End PageGroups.

(** ** [src/models.py]: the derived counts of a page *)

Module PageCounts.
Import PyStr.

(** [word_count]: [len(self.text_content.split())], [0] for no text *)
Definition word_count (page : PageContent.t) : nat :=
  if truthy (PageContent.text_content page)
  then length (words (PageContent.text_content page))
  else O.

(** [image_count] *)
Definition image_count (page : PageContent.t) : nat :=
  length (PageContent.images page).

End PageCounts.

(** ** [src/content_parser.py]: one image of [process_images], the image
    URLs and the navigation texts *)

Module ImageProcessing.
Import PyStr ContentParser.

(** The source made absolute against the domain of the site. *)
Definition absolute_src (domain src : string) : string :=
  if startswith "/" src then "https://" +:+ domain +:+ src
  else if negb (startswith "http://" src || startswith "https://" src)
  then "https://" +:+ domain +:+ "/" +:+ lstrip (is_char "/") src
  else src.

Definition documentation_style : string :=
  "width: 80%; height: auto; margin: 20px auto; display: block; border: 1px solid #ccc;".

Definition default_style : string := "max-width: 100%; height: auto;".

(** The body of the loop of [process_images] for one image of the tree:
    [None] when the image is removed ([decompose]), the element with its
    attributes set otherwise. [domain] is [self.config.domain]. *)
Definition process_image (domain : string) (img : Img) : option Tag :=
  let tag := img_tag img in
  let src := get_or_empty tag "src" in
  if negb (truthy src) then None
  else if _is_ui_icon img src then None
  else
    let src := absolute_src domain src in
    let attrs := <["src" := src]> (attrs tag) in
    let attrs :=
      if negb (truthy (default EmptyString (attrs !! "alt")))
      then <["alt" := "Documentation Image"]> attrs else attrs in
    let attrs := <["loading" := "lazy"]> attrs in
    let attrs :=
      if contains "codebase-indexing" src || contains "screenshot" src ||
         contains "indicator" (lower (default EmptyString (attrs !! "alt")))
      then <["style" := documentation_style]> attrs
      else if negb (truthy (default EmptyString (attrs !! "style")))
      then <["style" := default_style]> attrs
      else attrs in
    Some (mkTag (name tag) attrs (class_attr tag)).

(** The loop of [_extract_image_urls] over the images of the tree, in
    document order; [image_urls] is the list built so far. *)
Fixpoint extract_go (image_urls : list string) (imgs : list Tag)
  : list string :=
  match imgs with
  | [] => image_urls
  | img :: rest =>
      let src := get_or_empty img "src" in
      if truthy src && negb (bool_decide (src ∈ image_urls))
      then extract_go (image_urls ++ [src]) rest
      else extract_go image_urls rest
  end.

(** [_extract_image_urls], from the images [soup.find_all('img')] gives *)
Definition _extract_image_urls (imgs : list Tag) : list string :=
  extract_go [] imgs.

End ImageProcessing.

Module NavigationText.
Import PyStr.

Definition nav_text_patterns : list string :=
  ["Get started"; "Getting Started"; "get started";
   "Changelog"; "changelog"; "CHANGELOG";
   "Concepts"; "concepts"; "CONCEPTS";
   "Models"; "models"; "MODELS";
   "Cursor Documentation"; "Documentation";
   "Guides"; "guides"; "GUIDES";
   "Downloads"; "downloads"; "DOWNLOADS";
   "Tools"; "tools"; "TOOLS";
   "Forum"; "forum"; "FORUM";
   "Support"; "support"; "SUPPORT";
   "API Reference"; "Reference"; "API";
   "Quick Start"; "Quickstart"; "quickstart";
   "Installation"; "Install";
   "Configuration"; "Config";
   "Troubleshooting"; "FAQ";
   "Examples"; "Tutorials";
   "Community"; "Blog";
   "About"; "Contact";
   "Privacy"; "Terms";
   "Search"; "Menu"; "Navigation"].

(** The first loop of [_remove_navigation_text]: an element ([div],
    [span], [p], [li], [a]) with the text [text] ([get_text(strip=True)])
    is removed. *)
Definition removes_text_element (text : string) : bool :=
  if (100 <? String.length text)%nat then false
  else if bool_decide (text ∈ nav_text_patterns) then true
  else
    let ws := words text in
    (length ws <=? 3)%nat &&
    existsb (fun word => bool_decide (word ∈ nav_text_patterns)) ws.

(** [sum(1 for pattern in nav_text_patterns
         if pattern.lower() in text.lower())] *)
Definition nav_matches (text : string) : nat :=
  foldr (fun pattern count =>
           ((if contains (lower pattern) (lower text) then 1 else 0) + count)%nat)
        O nav_text_patterns.

(** The second loop: an element ([ul], [ol], [nav]) with the text [text]
    is removed. *)
Definition removes_menu (text : string) : bool :=
  (3 <=? nav_matches text)%nat && (String.length text <? 500)%nat.

End NavigationText.

(** ** Statements about the crawl frontier *)

Module FrontierSpec.
Import PyStr UrlParse URLManager.

(** The page cap stops further queueing: [self.max_pages and
    total_found >= self.max_pages]. *)
Definition cap_reached (self : t) : bool :=
  match max_pages self with
  | Some cap => negb (cap =? 0) && (cap <=? total_found (_stats self))
  | None => false
  end.

Definition after_duplicate (self : t) : t :=
  set_stats (incr_duplicates (_stats self)) self.

Definition after_skip (self : t) (n : string) : t :=
  set_stats (incr_skipped (_stats self))
    (set_skipped ({[n]} ∪ _skipped_urls self) self).

Definition after_append (self : t) (n : string) : t :=
  set_stats (incr_total_found (_stats self))
    (set_queue (_urls_to_visit self ++ [n]) self).

(** The five ways [add_url] returns. *)
Inductive add_outcome `{BracketedHost} (self : t) (url : string)
  : bool * t -> Prop :=
| add_empty :
    truthy url = false -> add_outcome self url (false, self)
| add_rejected n :
    truthy url = true -> _normalize_url self url = Some n ->
    should_crawl self n = false ->
    add_outcome self url (false, self)
| add_duplicate n :
    truthy url = true -> _normalize_url self url = Some n ->
    should_crawl self n = true ->
    n ∈ _visited_urls self ∨ n ∈ _urls_to_visit self ->
    add_outcome self url (false, after_duplicate self)
| add_skipped n :
    truthy url = true -> _normalize_url self url = Some n ->
    should_crawl self n = true ->
    n ∉ _visited_urls self -> n ∉ _urls_to_visit self ->
    cap_reached self = true ->
    add_outcome self url (false, after_skip self n)
| add_queued n :
    truthy url = true -> _normalize_url self url = Some n ->
    should_crawl self n = true ->
    n ∉ _visited_urls self -> n ∉ _urls_to_visit self ->
    cap_reached self = false ->
    add_outcome self url (true, after_append self n).

(** The states of a URL in a manager. *)
Definition queued (self : t) (u : string) : Prop := u ∈ _urls_to_visit self.
Definition is_failed_url (self : t) (u : string) : Prop := u ∈ _failed_urls self.
Definition is_skipped_url (self : t) (u : string) : Prop := u ∈ _skipped_urls self.

(** The number of states a URL is in. *)
Definition state_count (self : t) (u : string) : nat :=
  (if bool_decide (u ∈ _urls_to_visit self) then 1 else 0) +
  (if bool_decide (u ∈ _visited_urls self) then 1 else 0) +
  (if bool_decide (u ∈ _failed_urls self) then 1 else 0) +
  (if bool_decide (u ∈ _skipped_urls self) then 1 else 0).

(** What the manager keeps in every reachable state. *)
Record frontier_inv (self : t) : Prop := {
  inv_nodup : NoDup (_urls_to_visit self);
  inv_queue_not_skipped :
    forall u, u ∈ _urls_to_visit self -> u ∉ _skipped_urls self;
  inv_skipped_cap :
    forall u, u ∈ _skipped_urls self -> cap_reached self = true;
  inv_total_found :
    forall cap, max_pages self = Some cap -> 0 < cap ->
                total_found (_stats self) <= cap;
  inv_counters :
    0 <= total_found (_stats self) /\ 0 <= skipped (_stats self)
}.

(** *** Managers of concrete sites *)

Definition blank : t := mk "" None [] ∅ ∅ ∅ (mkStats 0 0 0 0 0) "".

(** [URLManager("https://test.com")], as in [tests/test_url_manager.py] *)
Definition test_manager : t :=
  default blank (new (H:=any_bracketed_host) "https://test.com" None).

(** [URLManager("https://docs.example.com/", 5)] *)
Definition docs_manager : t :=
  default blank
    (new (H:=any_bracketed_host) "https://docs.example.com/" (Some 5)).

Definition docs_links : list string :=
  ["/"; "/getting-started"; "/features"; "/settings"; "/troubleshooting";
   "/blog/extra"].

Definition after_calls (self : t) (cs : list call) : t :=
  default blank (run (H:=any_bracketed_host) self cs).

End FrontierSpec.

(** ** Statements about the page model and the page sorter *)

Module SorterSpec.
Import PyStr UrlParse.

(** The order of keys: [sorted] compares strings character by character. *)
Definition key_lt (k1 k2 : string) : bool := String.ltb k1 k2.

(** The last character of a string. *)
Fixpoint last_char (s : string) : option ascii :=
  match s with
  | EmptyString => None
  | String c EmptyString => Some c
  | String _ s' => last_char s'
  end.

Definition blank_page : PageContent.t :=
  PageContent.mk "" "" "" "" [] "" None.

(** [PageContent(url=url, title="", content_html=html, text_content=text)] *)
Definition page_of (url html text : string) : PageContent.t :=
  default blank_page
    (PageContent.new (H:=any_bracketed_host) url "" html text [] "" None).

Definition sorter_key (url : string) : string :=
  PageSorter.generate_order_key (H:=any_bracketed_host) url.

End SorterSpec.

(** ** Statements about the de-duplication *)

Module DedupSpec.
Import PyStr PDFGenerator.

(** The first page of a list with a given key. *)
Definition first_with_key (key : string) (pages : list PageContent.t)
  : option PageContent.t :=
  List.find (fun page => bool_decide (check_url page = key)) pages.

(** Two fetched pages that were redirected to one address. *)
Definition redirected_a : PageContent.t :=
  PageContent.mk "https://docs.example.com/start" "Start" "<p>a</p>" "a" []
    "000_start" (Some "https://docs.example.com/welcome").
Definition redirected_b : PageContent.t :=
  PageContent.mk "https://docs.example.com/intro" "Intro" "<p>b</p>" "b" []
    "000_intro" (Some "https://docs.example.com/welcome").

End DedupSpec.

(** ** Statements about the image classifier and [parse_page] *)

Module ParserSpec.
Import PyStr UrlParse ContentParser.

(** The text of the [alt] attribute as the classifier measures it. *)
Definition stripped_alt (img : Img) : string :=
  strip isspace (get_or_empty (img_tag img) "alt").

(** The logo of the application, with an alt text of eleven characters
    that strips to four. *)
Definition logo_img : Img :=
  mkImg (mkTag "img"
           {[ "alt" := "Logo       "; "width" := "16"; "height" := "16" ]}
           None)
        [mkTag "div" ∅ None; mkTag "body" ∅ None].

Definition logo_src : string := "https://docs.example.com/images/app-logo.svg".

(** A screenshot of sixteen by sixteen pixels with a meaningful alt
    text. *)
Definition screenshot_img : Img :=
  mkImg (mkTag "img"
           {[ "alt" := "Settings dialog"; "width" := "16"; "height" := "16" ]}
           None)
        [mkTag "body" ∅ None].

Section Claim.
Context {BH : BracketedHost}.
Variable pipeline : PageData.t -> Exn (string * string * list string).
Variable basic_text_of : string -> Exn string.

(** The claim as C4 states it: when the pipeline raises, the page
    returned carries the preview of the text of the raw HTML. *)
Definition preview_on_failure (page_data : PageData.t) : Prop :=
  forall e, pipeline page_data = Raise e ->
    exists page text,
      parse_page pipeline basic_text_of page_data = Ok page /\
      basic_text_of (PageData.html_content page_data) = Ok text /\
      PageContent.text_content page = take 1000 text.

End Claim.

Definition guide_page : PageData.t :=
  PageData.mk "https://docs.example.com/guide" "" "<p>Hello</p>" 200 [] None.

(** Stages that raise, as on markup nested too deep for the tree walk. *)
Definition raising_pipeline
  : PageData.t -> Exn (string * string * list string) :=
  fun _ => Raise "maximum recursion depth exceeded".
Definition raising_text : string -> Exn string :=
  fun _ => Raise "maximum recursion depth exceeded".
Definition plain_text : string -> Exn string := fun _ => Ok "Hello".

End ParserSpec.

(** ** Further statements about the crawl frontier *)

Module FrontierMoreSpec.
Import PyStr UrlParse URLManager FrontierSpec.

(** The URLs that [get_next_url] has handed out so far are counted by the
    difference between the discovered count and the length of the queue. *)
Definition handed_out (self : t) : Z :=
  total_found (_stats self) - Z.of_nat (length (_urls_to_visit self)).

(** What [should_crawl] requires of a URL. *)
Definition crawlable `{BracketedHost} (self : t) (url : string) : Prop :=
  exists parsed,
    urlparse url = Some parsed /\
    truthy (scheme parsed) = true /\
    netloc parsed = domain self /\
    truthy (netloc parsed) = true /\
    (forall ext, ext ∈ skip_extensions ->
                 endswith ext (lower (path parsed)) = false) /\
    (forall skip_path, skip_path ∈ skip_paths ->
                       contains skip_path (lower (path parsed)) = false).

(** Every queued URL passes [should_crawl]. *)
Definition queue_crawlable `{BracketedHost} (self : t) : Prop :=
  forall u, u ∈ _urls_to_visit self -> should_crawl self u = true.

(** The counters of a manager bound what it stores. *)
Record counters_bound (self : t) : Prop := {
  bound_queue : 0 <= handed_out self;
  bound_visited : Z.of_nat (size (_visited_urls self)) <= visited (_stats self);
  bound_failed : Z.of_nat (size (_failed_urls self)) <= failed (_stats self);
  bound_skipped : Z.of_nat (size (_skipped_urls self)) <= skipped (_stats self);
  bound_duplicates : 0 <= duplicates (_stats self)
}.

End FrontierMoreSpec.

(** ** A site of three pages for the crawl loop *)

Module CrawlSpec.
Import PyStr UrlParse URLManager FrontierSpec SeleniumCrawler.

(** The home page links to [/a] and [/b], [/a] links back, the fetch of
    [/b] fails. *)
Definition small_site (n : nat) (url : string) : option PageData.t :=
  if String.eqb url "https://test.com" then
    Some (PageData.mk url "Home" "<p>home</p>" 200
            ["https://test.com/a"; "https://test.com/b"] (Some url))
  else if String.eqb url "https://test.com/a" then
    Some (PageData.mk url "A" "<p>a</p>" 200 ["https://test.com/#top"]
            (Some url))
  else None.

(** [URLManager("https://test.com", 2)] *)
Definition capped_manager : t :=
  default blank (new (H:=any_bracketed_host) "https://test.com" (Some 2)).

Definition returned_pages (o : outcome) : list PageData.t :=
  match o with Returned pages _ => pages | _ => [] end.

Definition returned_manager (o : outcome) : t :=
  match o with Returned _ url_manager => url_manager | _ => blank end.

Definition small_crawl : outcome :=
  crawl_all (H:=any_bracketed_host) small_site (Some 2) 3 capped_manager.

End CrawlSpec.

(** ** Further statements about the page sorter *)

Module SorterMoreSpec.
Import PyStr.

(** The order in which [sorted] leaves two pages. *)
Definition key_le (p q : PageContent.t) : Prop :=
  String.le (PageContent.order_key p) (PageContent.order_key q).

(** The pages of a list with a given key, in their order. *)
Definition with_key (key : string) (pages : list PageContent.t)
  : list PageContent.t :=
  filter (fun p => PageContent.order_key p = key) pages.

(** A key that starts with three digits and an underscore. *)
Definition has_rank_prefix (key : string) : bool :=
  match key with
  | String a (String b (String c (String "_" _))) =>
      isdigit a && isdigit b && isdigit c
  | _ => false
  end.

(** What the dictionary of sections keeps while the pages are read. *)
Definition sections_ok `{UrlParse.BracketedHost}
    (sections : list (string * list PageContent.t)) : Prop :=
  NoDup sections.*1 /\
  forall name pages, (name, pages) ∈ sections ->
    pages <> [] /\ forall p, p ∈ pages -> PageGroups.section_of p = name.

End SorterMoreSpec.

(** ** Further statements about the content parser *)

Module ParserMoreSpec.
Import PyStr ImageProcessing.

(** An absolute [http] or [https] URL. *)
Definition is_absolute (src : string) : bool :=
  startswith "http://" src || startswith "https://" src.

(** The words of the navigation vocabulary that the pattern list holds in
    three spellings. *)
Definition thrice_listed : list string :=
  ["changelog"; "concepts"; "models"; "guides"; "downloads"; "tools";
   "forum"; "support"].

(** The two steps of [process_images] that set a missing attribute. *)
Definition with_alt (attrs : gmap string string) : gmap string string :=
  if negb (truthy (default EmptyString (attrs !! "alt")))
  then <["alt" := "Documentation Image"]> attrs else attrs.

Definition with_style (src : string) (attrs : gmap string string)
  : gmap string string :=
  if contains "codebase-indexing" src || contains "screenshot" src ||
     contains "indicator" (lower (default EmptyString (attrs !! "alt")))
  then <["style" := documentation_style]> attrs
  else if negb (truthy (default EmptyString (attrs !! "style")))
  then <["style" := default_style]> attrs
  else attrs.

(** An image with a relative source, on a page of [docs.example.com]. *)
Definition settings_img : ContentParser.Img :=
  ContentParser.mkImg
    (ContentParser.mkTag "img"
       {[ "src" := "/images/settings.png"; "alt" := "Settings dialog" ]} None)
    [ContentParser.mkTag "body" ∅ None].

Definition settings_kept : ContentParser.Tag :=
  default (ContentParser.img_tag settings_img)
    (process_image "docs.example.com" settings_img).

Definition two_words_page : PageContent.t :=
  PageContent.mk "https://docs.example.com/" "Home" "<p>hello world</p>"
    "hello world" [] "000_index" None.

End ParserMoreSpec.

(** * Properties *)

(** ** The crawl frontier *)

Module FrontierFacts.
Import PyStr UrlParse URLManager FrontierSpec.

Section Facts.
Context {BH : BracketedHost}.

Lemma add_url_outcome self url r :
  add_url self url = Some r -> add_outcome self url r.
Proof.
  unfold add_url. destruct (truthy url) eqn:Hu; simpl.
  2:{ intros [= <-]. by constructor. }
  destruct (_normalize_url self url) as [n|] eqn:Hn; simpl; [|done].
  destruct (should_crawl self n) eqn:Hc; simpl.
  2:{ intros [= <-]. by eapply add_rejected. }
  destruct (bool_decide (n ∈ _visited_urls self)) eqn:Hv; simpl.
  { intros [= <-]. eapply add_duplicate; eauto.
    left. by apply bool_decide_eq_true in Hv. }
  destruct (bool_decide (n ∈ _urls_to_visit self)) eqn:Hq; simpl.
  { intros [= <-]. eapply add_duplicate; eauto.
    right. by apply bool_decide_eq_true in Hq. }
  apply bool_decide_eq_false in Hv, Hq.
  fold (cap_reached self).
  destruct (cap_reached self) eqn:Hcap; intros [= <-].
  - by eapply add_skipped.
  - by eapply add_queued.
Qed.

(** [add_url] returns whenever the URL can be normalized. *)
Lemma add_url_returns self url n :
  _normalize_url self url = Some n -> is_Some (add_url self url).
Proof.
  intros Hn. unfold add_url. rewrite Hn. simpl.
  repeat (case_match; simpl; eauto).
Qed.

Lemma normalize_base self self' url :
  base_url self' = base_url self ->
  _normalize_url self' url = _normalize_url self url.
Proof. intros E. unfold _normalize_url. by rewrite E. Qed.

Lemma should_crawl_domain self self' url :
  domain self' = domain self ->
  should_crawl self' url = should_crawl self url.
Proof. intros E. unfold should_crawl. by rewrite E. Qed.

(** No call changes the base URL, the cap or the domain. *)
Lemma exec_config self c self' :
  exec self c = Some self' ->
  base_url self' = base_url self /\ max_pages self' = max_pages self /\
  domain self' = domain self.
Proof.
  destruct c as [url| |url|url]; simpl.
  - destruct (add_url self url) as [r|] eqn:E; simpl; [|done].
    intros [= <-]. apply add_url_outcome in E. by destruct E.
  - intros [= <-]. unfold get_next_url. by case_match.
  - unfold mark_visited. destruct (_normalize_url self url); simpl; [|done].
    by intros [= <-].
  - unfold mark_failed. destruct (_normalize_url self url); simpl; [|done].
    by intros [= <-].
Qed.

Lemma run_config self cs self' :
  run self cs = Some self' ->
  base_url self' = base_url self /\ max_pages self' = max_pages self /\
  domain self' = domain self.
Proof.
  revert self. induction cs as [|c cs IH]; intros self; simpl.
  - by intros [= <-].
  - destruct (exec self c) as [s1|] eqn:E; simpl; [|done].
    intros Hr. apply IH in Hr. apply exec_config in E.
    destruct Hr as (-> & -> & ->). done.
Qed.

Lemma cap_reached_spec self :
  cap_reached self = true <->
  exists cap, max_pages self = Some cap /\ cap <> 0 /\
              cap <= total_found (_stats self).
Proof.
  unfold cap_reached. destruct (max_pages self) as [cap|].
  - rewrite andb_true_iff, negb_true_iff, Z.eqb_neq, Z.leb_le.
    split; [intros []; eauto|]. by intros (? & [= <-] & ? & ?).
  - split; [done|]. by intros (? & ? & ?).
Qed.

(** The manager of [__init__] before it queues the base URL. *)
Lemma empty_inv base cap dom :
  frontier_inv (mk base cap [] ∅ ∅ ∅ (mkStats 0 0 0 0 0) dom).
Proof.
  split; simpl.
  - constructor.
  - intros u Hu. by apply elem_of_nil in Hu.
  - intros u Hu. by apply not_elem_of_empty in Hu.
  - lia.
  - lia.
Qed.

Lemma cap_reached_eq self self' :
  max_pages self' = max_pages self ->
  total_found (_stats self') = total_found (_stats self) ->
  cap_reached self' = cap_reached self.
Proof. intros Hm Ht. unfold cap_reached. by rewrite Hm, Ht. Qed.

Lemma exec_inv self c self' :
  frontier_inv self -> exec self c = Some self' -> frontier_inv self'.
Proof.
  intros [Hnd Hqs Hsc Htf Hcnt]. destruct c as [url| |url|url]; simpl.
  - destruct (add_url self url) as [r|] eqn:E; simpl; [|done].
    intros [= <-]. apply add_url_outcome in E.
    destruct E as [?|n ? ? ?|n ? ? ? ?|n ? ? ? Hv Hq Hcap|n ? ? ? Hv Hq Hcap];
      simpl; try done.
    + split; simpl.
      * done.
      * intros u Hu. rewrite elem_of_union, elem_of_singleton.
        intros [->|Hs]; [done|]. by apply (Hqs u).
      * intros u _. rewrite <- Hcap. by apply cap_reached_eq.
      * done.
      * lia.
    + assert (Hempty : forall u, u ∉ _skipped_urls self).
      { intros u Hu. apply Hsc in Hu. congruence. }
      split; simpl.
      * apply NoDup_app. split_and!; [done| |apply NoDup_singleton].
        intros u Hu ->%list_elem_of_singleton. done.
      * intros u _. apply Hempty.
      * intros u Hu. by apply Hempty in Hu.
      * intros cap Hm Hpos.
        assert (~ cap <= total_found (_stats self)); [|lia].
        intros Hle. apply not_true_iff_false in Hcap. apply Hcap.
        apply cap_reached_spec. exists cap. split_and!; [done|lia|done].
      * lia.
  - intros [= <-]. unfold get_next_url.
    destruct (_urls_to_visit self) as [|u q] eqn:Eq; simpl.
    + split; try done; by rewrite Eq.
    + split; simpl; [|  |done|done|done].
      * by apply NoDup_cons in Hnd as [_ ?].
      * intros v Hv. apply Hqs. by apply elem_of_cons; right.
  - unfold mark_visited. destruct (_normalize_url self url); simpl; [|done].
    intros [= <-]. split; simpl; [done|done| |done|lia].
    intros u Hu. rewrite <- (Hsc u Hu). by apply cap_reached_eq.
  - unfold mark_failed. destruct (_normalize_url self url); simpl; [|done].
    intros [= <-]. split; simpl; [done|done| |done|lia].
    intros u Hu. rewrite <- (Hsc u Hu). by apply cap_reached_eq.
Qed.

Lemma reachable_inv self : reachable self -> frontier_inv self.
Proof.
  induction 1 as [base cap self Hnew|self c self' _ IH Hex].
  - unfold new in Hnew.
    destruct (urlparse (rstrip (is_char "/") base)) as [parsed|]; [|done].
    simpl in Hnew.
    eapply (exec_inv _ (AddUrl (rstrip (is_char "/") base)));
      [apply empty_inv|exact Hnew].
  - by eapply exec_inv.
Qed.

(** The sets of visited, failed and skipped URLs only grow, and a URL
    leaves the queue through [get_next_url] alone. *)
Lemma exec_monotone self c self' :
  exec self c = Some self' ->
  (_visited_urls self ⊆ _visited_urls self') /\
  (_failed_urls self ⊆ _failed_urls self') /\
  (_skipped_urls self ⊆ _skipped_urls self') /\
  (c <> GetNextUrl -> forall u, u ∈ _urls_to_visit self ->
                                u ∈ _urls_to_visit self').
Proof.
  destruct c as [url| |url|url]; simpl.
  - destruct (add_url self url) as [r|] eqn:E; simpl; [|done].
    intros [= <-]. apply add_url_outcome in E.
    destruct E; simpl; split_and!; try set_solver.
  - intros [= <-]. unfold get_next_url.
    destruct (_urls_to_visit self); simpl; split_and!; try done.
  - unfold mark_visited. destruct (_normalize_url self url); simpl; [|done].
    intros [= <-]. simpl. split_and!; try set_solver.
  - unfold mark_failed. destruct (_normalize_url self url); simpl; [|done].
    intros [= <-]. simpl. split_and!; try set_solver.
Qed.

Lemma run_queue_monotone self cs self' :
  run self cs = Some self' -> GetNextUrl ∉ cs ->
  forall u, u ∈ _urls_to_visit self -> u ∈ _urls_to_visit self'.
Proof.
  revert self. induction cs as [|c cs IH]; intros self; simpl.
  - by intros [= <-].
  - destruct (exec self c) as [s1|] eqn:E; simpl; [|done].
    intros Hr Hno u Hu. apply not_elem_of_cons in Hno as [Hc Hno].
    apply (IH s1); [done..|].
    apply exec_monotone in E as (_ & _ & _ & Hq). by apply Hq.
Qed.

(** Once the count of discovered URLs has reached the cap, a new,
    crawlable URL is refused, recorded as skipped and counted. *)
Lemma add_url_over_cap self url n :
  truthy url = true -> _normalize_url self url = Some n ->
  should_crawl self n = true ->
  n ∉ _visited_urls self -> n ∉ _urls_to_visit self ->
  cap_reached self = true ->
  add_url self url = Some (false, after_skip self n).
Proof.
  intros Hu Hn Hc Hv Hq Hcap. unfold add_url. rewrite Hu, Hn. simpl.
  rewrite Hc. simpl.
  rewrite (bool_decide_eq_false_2 _ Hv), (bool_decide_eq_false_2 _ Hq).
  simpl. fold (cap_reached self). by rewrite Hcap.
Qed.

(** The discovered count of a manager with a positive cap never exceeds
    the cap, and it counts the URLs queued so far. *)
Lemma total_found_le_cap self cap :
  reachable self -> max_pages self = Some cap -> 0 < cap ->
  total_found (_stats self) <= cap.
Proof. intros Hr. by apply (inv_total_found _ (reachable_inv _ Hr)). Qed.


(** A second call of [mark_visited] or [mark_failed] on the same URL
    leaves the sets as they are. *)
Lemma union_singleton_twice (n : string) (X : gset string) :
  {[n]} ∪ ({[n]} ∪ X) = {[n]} ∪ X.
Proof. by rewrite (assoc_L (∪)), (idemp_L (∪)). Qed.

(** C5, as amended: [mark_visited] and [mark_failed] are idempotent on
    the sets of URLs (a second call for the same URL changes no set, no
    queue and no other counter), while each call adds one to its
    counter: the manager after two calls is the manager after one call
    with [visited] (respectively [failed]) raised by one. *)
Theorem mark_twice_counts self url :
  (forall self1, mark_visited self url = Some self1 ->
     mark_visited self1 url =
       Some (set_stats (incr_visited (_stats self1)) self1)) /\
  (forall self1, mark_failed self url = Some self1 ->
     mark_failed self1 url =
       Some (set_stats (incr_failed (_stats self1)) self1)).
Proof.
  split; intros self1.
  - unfold mark_visited.
    destruct (_normalize_url self url) as [n|] eqn:Hn; simpl; [|done].
    intros [= <-].
    erewrite (normalize_base self) by done. rewrite Hn. simpl.
    unfold set_stats, set_visited. simpl.
    by rewrite union_singleton_twice.
  - unfold mark_failed.
    destruct (_normalize_url self url) as [n|] eqn:Hn; simpl; [|done].
    intros [= <-].
    erewrite (normalize_base self) by done. rewrite Hn. simpl.
    unfold set_stats, set_failed. simpl.
    by rewrite union_singleton_twice.
Qed.

(** C2, as amended: when [A] and [B] normalize to the same canonical
    URL and [add_url] has accepted [A], a later [add_url] of [B] counts
    a duplicate and returns false, provided the canonical URL is still
    queued or is in the visited set by then; that is so, in particular,
    after any calls that do not take a URL from the queue. *)
Theorem add_url_same_canonical self A B n self1 cs self2 :
  _normalize_url self A = Some n ->
  _normalize_url self B = Some n ->
  add_url self A = Some (true, self1) ->
  run self1 cs = Some self2 ->
  GetNextUrl ∉ cs \/ n ∈ _urls_to_visit self2 \/ n ∈ _visited_urls self2 ->
  add_url self2 B = Some (false, after_duplicate self2).
Proof.
  intros HA HB Hadd Hrun Hstill.
  apply add_url_outcome in Hadd.
  inversion Hadd as [| | | |n' HtA HnA Hc Hv Hq Hcap E1]; subst.
  rewrite HA in HnA. injection HnA as <-.
  destruct (run_config _ _ _ Hrun) as (Hb & _ & Hd).
  simpl in Hb, Hd.
  assert (HtB : truthy B = true).
  { destruct B; [|done]. unfold _normalize_url in HB. simpl in HB.
    injection HB as <-. unfold should_crawl in Hc. by simpl in Hc. }
  assert (Hin : n ∈ _visited_urls self2 \/ n ∈ _urls_to_visit self2).
  { destruct Hstill as [Hno|[?|?]]; [|by right|by left].
    right. eapply run_queue_monotone; [done..|].
    simpl. apply elem_of_app. right. by apply list_elem_of_singleton. }
  unfold add_url. rewrite HtB. simpl.
  rewrite (normalize_base self self2 B Hb), HB. simpl.
  rewrite (should_crawl_domain self self2 n Hd), Hc. simpl.
  destruct Hin as [Hin|Hin].
  - by rewrite (bool_decide_eq_true_2 _ Hin).
  - rewrite (bool_decide_eq_true_2 _ Hin). by rewrite orb_true_r.
Qed.

(** C6, as amended: in every reachable manager the queue holds no URL
    twice and no URL is both queued and skipped over the limit; the
    sets of visited, failed and skipped URLs only grow, a skipped URL
    is never queued afterwards, and a queued URL leaves the queue only
    when [get_next_url] takes it. (Visited and failed are independent
    of the other states: a URL can be visited and failed, or queued and
    failed, at once.) *)
Theorem frontier_states self :
  reachable self ->
  NoDup (_urls_to_visit self) /\
  (forall u, ~ (queued self u /\ is_skipped_url self u)) /\
  (forall c self', exec self c = Some self' ->
     (_visited_urls self ⊆ _visited_urls self') /\
     (_failed_urls self ⊆ _failed_urls self') /\
     (_skipped_urls self ⊆ _skipped_urls self') /\
     (forall u, is_skipped_url self u -> ~ queued self' u) /\
     (forall u, queued self u -> c <> GetNextUrl -> queued self' u)).
Proof.
  intros Hr. pose proof (reachable_inv _ Hr) as Hinv.
  split_and!.
  - apply Hinv.
  - intros u [Hq Hs]. by apply (inv_queue_not_skipped _ Hinv u).
  - intros c self' Hex.
    pose proof (exec_inv _ _ _ Hinv Hex) as Hinv'.
    destruct (exec_monotone _ _ _ Hex) as (Hv & Hf & Hs & Hq).
    split_and!; try done.
    + intros u Hu Hq'. apply (inv_queue_not_skipped _ Hinv' u Hq').
      by apply Hs.
    + intros u Hu Hc. by apply Hq.
Qed.
End Facts.


(** *** The frontier on concrete URLs *)

Lemma reachable_run `{BracketedHost} self cs self' :
  reachable self -> run self cs = Some self' -> reachable self'.
Proof.
  revert self. induction cs as [|c cs IH]; intros self Hr; simpl.
  - by intros [= <-].
  - destruct (exec self c) as [s1|] eqn:E; simpl; [|done].
    apply IH. by eapply reach_exec.
Qed.

Lemma test_manager_reachable : reachable (H:=any_bracketed_host) test_manager.
Proof.
  apply (reach_new (H:=any_bracketed_host) "https://test.com" None).
  vm_compute. reflexivity.
Qed.

Lemma docs_manager_reachable : reachable (H:=any_bracketed_host) docs_manager.
Proof.
  apply (reach_new (H:=any_bracketed_host) "https://docs.example.com/" (Some 5)).
  vm_compute. reflexivity.
Qed.

(** C1, the scenario on the code: the manager for
    [https://docs.example.com/] with cap 5 has queued its base URL
    [https://docs.example.com]; the link [/] becomes
    [https://docs.example.com/], which is not taken for the base URL and
    is queued as well; the cap is reached after [/settings], and both
    [/troubleshooting] and [/blog/extra] are skipped: discovered = 5,
    skipped = 2. *)
Theorem cap_scenario_on_code :
  let self := after_calls docs_manager (AddUrl <$> docs_links) in
  run (H:=any_bracketed_host) docs_manager (AddUrl <$> docs_links) = Some self /\
  total_found (_stats self) = 5 /\
  skipped (_stats self) = 2 /\
  _urls_to_visit self =
    ["https://docs.example.com"; "https://docs.example.com/";
     "https://docs.example.com/getting-started";
     "https://docs.example.com/features";
     "https://docs.example.com/settings"] /\
  _skipped_urls self =
    {["https://docs.example.com/troubleshooting";
      "https://docs.example.com/blog/extra"]}.
Proof. intros self. split_and!; vm_compute; reflexivity. Qed.

(** The base URL with and without its final slash: two canonical URLs. *)
Lemma root_is_not_base :
  _normalize_url (H:=any_bracketed_host) docs_manager "https://docs.example.com"
    = Some "https://docs.example.com" /\
  _normalize_url (H:=any_bracketed_host) docs_manager "https://docs.example.com/"
    = Some "https://docs.example.com/".
Proof. vm_compute. done. Qed.

(** C2 fails as stated: [https://test.com/page1] is accepted, taken from
    the queue and not marked (its fetch failed); the same page with a
    fragment is then accepted again. *)
Lemma same_canonical_accepted_twice :
  let A := "https://test.com/page1" in
  let B := "https://test.com/page1/#intro" in
  let self1 := default blank (snd <$> add_url (H:=any_bracketed_host) test_manager A) in
  let self2 :=
    after_calls self1
      [GetNextUrl; MarkVisited "https://test.com"; GetNextUrl] in
  _normalize_url (H:=any_bracketed_host) test_manager A = Some A /\
  _normalize_url (H:=any_bracketed_host) test_manager B = Some A /\
  fst <$> add_url (H:=any_bracketed_host) test_manager A = Some true /\
  run (H:=any_bracketed_host) self1
      [GetNextUrl; MarkVisited "https://test.com"; GetNextUrl] = Some self2 /\
  fst <$> add_url (H:=any_bracketed_host) self2 B = Some true.
Proof. vm_compute. done. Qed.

Lemma add_url_same_canonical_witness :
  let A := "https://test.com/page1" in
  let B := "https://test.com/page1/#intro" in
  let cs := [MarkVisited "https://test.com"; AddUrl "/page2"] in
  let self1 := default blank (snd <$> add_url (H:=any_bracketed_host) test_manager A) in
  let self2 := after_calls self1 cs in
  add_url (H:=any_bracketed_host) self2 B = Some (false, after_duplicate self2).
Proof.
  intros A B cs self1 self2.
  apply (add_url_same_canonical (BH:=any_bracketed_host)
           test_manager A B A self1 cs self2).
  - vm_compute. reflexivity.
  - vm_compute. reflexivity.
  - vm_compute. reflexivity.
  - vm_compute. reflexivity.
  - left. intros Hin. repeat (apply elem_of_cons in Hin as [Hin|Hin]; [done|]).
    by apply elem_of_nil in Hin.
Defined.

(** C5 fails as stated: the second [mark_visited] of a URL counts again,
    and so does the second [mark_failed]. *)
Lemma mark_twice_differs :
  let u := "https://test.com/page1" in
  let once := after_calls test_manager [MarkVisited u] in
  let twice := after_calls test_manager [MarkVisited u; MarkVisited u] in
  let failed_once := after_calls test_manager [MarkFailed u] in
  let failed_twice := after_calls test_manager [MarkFailed u; MarkFailed u] in
  run (H:=any_bracketed_host) test_manager [MarkVisited u] = Some once /\
  run (H:=any_bracketed_host) test_manager [MarkVisited u; MarkVisited u]
    = Some twice /\
  visited (_stats once) = 1 /\ visited (_stats twice) = 2 /\ twice <> once /\
  failed (_stats failed_once) = 1 /\ failed (_stats failed_twice) = 2 /\
  failed_twice <> failed_once.
Proof.
  intros u once twice failed_once failed_twice.
  split_and!; try (vm_compute; reflexivity).
  - intros E. apply (f_equal (fun s => visited (_stats s))) in E.
    vm_compute in E. discriminate.
  - intros E. apply (f_equal (fun s => failed (_stats s))) in E.
    vm_compute in E. discriminate.
Qed.

Lemma mark_twice_counts_witness :
  let u := "https://test.com/page1" in
  let once := after_calls test_manager [MarkVisited u] in
  let failed_once := after_calls test_manager [MarkFailed u] in
  mark_visited (H:=any_bracketed_host) once u =
    Some (set_stats (incr_visited (_stats once)) once) /\
  mark_failed (H:=any_bracketed_host) failed_once u =
    Some (set_stats (incr_failed (_stats failed_once)) failed_once).
Proof.
  intros u once failed_once.
  destruct (mark_twice_counts (BH:=any_bracketed_host) test_manager u)
    as [Hv Hf].
  split; [apply Hv|apply Hf]; vm_compute; reflexivity.
Defined.

(** C6 fails as stated: the base URL is taken from the queue, marked
    failed and found again by a later page; it is then queued and failed
    at once. Marked visited as well, it is in three states. *)
Lemma queued_and_failed :
  let u := "https://test.com" in
  let self := after_calls test_manager [GetNextUrl; MarkFailed u; AddUrl u] in
  let self' := after_calls self [MarkVisited u] in
  reachable (H:=any_bracketed_host) self /\
  queued self u /\ is_failed_url self u /\ state_count self u = 2%nat /\
  reachable (H:=any_bracketed_host) self' /\ state_count self' u = 3%nat.
Proof.
  intros u self self'.
  assert (Hr : reachable (H:=any_bracketed_host) self).
  { apply (reachable_run test_manager [GetNextUrl; MarkFailed u; AddUrl u]);
      [apply test_manager_reachable|vm_compute; reflexivity]. }
  split_and!.
  - exact Hr.
  - unfold queued. refine (bool_decide_unpack _ _). vm_compute. exact I.
  - unfold is_failed_url. refine (bool_decide_unpack _ _). vm_compute. exact I.
  - vm_compute. reflexivity.
  - apply (reachable_run self [MarkVisited u]);
      [exact Hr|vm_compute; reflexivity].
  - vm_compute. reflexivity.
Qed.

Lemma frontier_states_witness :
  reachable (H:=any_bracketed_host) docs_manager /\
  NoDup (_urls_to_visit docs_manager) /\
  (forall u, ~ (queued docs_manager u /\ is_skipped_url docs_manager u)).
Proof.
  assert (Hr : reachable (H:=any_bracketed_host) docs_manager).
  { apply (reach_new (H:=any_bracketed_host)
             "https://docs.example.com/" (Some 5)).
    vm_compute. reflexivity. }
  destruct (frontier_states (BH:=any_bracketed_host) docs_manager Hr)
    as (Hnd & Hqs & _).
  exact (conj Hr (conj Hnd Hqs)).
Defined.

End FrontierFacts.

(** ** The page model and the page sorter *)

Module SorterFacts.
Import PyStr UrlParse SorterSpec.

Section Facts.
Context {BH : BracketedHost}.

(** The key depends on the path of the URL alone, where the URL can be
    parsed. *)
Lemma generate_order_key_path_only url1 url2 p1 p2 :
  urlparse url1 = Some p1 -> urlparse url2 = Some p2 ->
  path p1 = path p2 ->
  PageSorter.generate_order_key url1 = PageSorter.generate_order_key url2.
Proof.
  intros H1 H2 Hp. unfold PageSorter.generate_order_key.
  by rewrite H1, H2, Hp.
Qed.

Lemma split_not_nil c s : split c s <> [].
Proof.
  destruct s as [|a s]; simpl; [done|].
  destruct (Ascii.eqb a c); [done|]. by destruct (split c s).
Qed.

Lemma truthy_app_l s1 s2 : truthy s1 = true -> truthy (s1 +:+ s2) = true.
Proof. by destruct s1. Qed.

Lemma join_cons_truthy sep x l :
  truthy x = true -> truthy (join sep (x :: l)) = true.
Proof. intros Hx. destruct l; simpl; [done|]. by apply truthy_app_l. Qed.

Lemma rstrip_last p s c :
  last_char (rstrip p s) = Some c -> p c = false.
Proof.
  revert c. induction s as [|a s IH]; intros c; simpl; [done|].
  destruct (rstrip p s) as [|b r] eqn:E.
  - destruct (p a) eqn:Hp; simpl; [done|]. by intros [= <-].
  - simpl. intros Hl. apply IH. exact Hl.
Qed.

Lemma split_last_empty c s :
  List.last (split c s) EmptyString = EmptyString ->
  s = EmptyString \/ last_char s = Some c.
Proof.
  induction s as [|a s IH]; simpl; [by left|].
  intros Hl. right.
  destruct (Ascii.eqb a c) eqn:Hac.
  - apply Ascii.eqb_eq in Hac as ->.
    pose proof (split_not_nil c s) as Hne.
    destruct (split c s) as [|h t] eqn:Es; [done|].
    simpl in Hl. destruct (IH Hl) as [->|Hs]; [done|].
    destruct s; [done|exact Hs].
  - pose proof (split_not_nil c s) as Hne.
    destruct (split c s) as [|h t] eqn:Es; [done|].
    destruct t as [|h' t'].
    + simpl in Hl. discriminate.
    + assert (Hl' : List.last (h :: h' :: t') EmptyString = EmptyString)
        by exact Hl.
      destruct (IH Hl') as [->|Hs]; [done|].
      destruct s; [done|exact Hs].
Qed.

(** A path stripped of its slashes and not empty ends in a segment that
    is not empty. *)
Lemma last_segment_truthy s :
  let path := strip (is_char "/") s in
  truthy path = true ->
  truthy (List.last (split "/" path) EmptyString) = true.
Proof.
  intros path Hp.
  destruct (List.last (split "/" path) EmptyString) eqn:El; [|done].
  apply split_last_empty in El as [E|E].
  - by rewrite E in Hp.
  - unfold path, strip in E. apply rstrip_last in E.
    unfold is_char in E. by rewrite Ascii.eqb_refl in E.
Qed.

Lemma replace_char_truthy c1 c2 s :
  truthy s = true ->
  truthy (replace (String c1 EmptyString) (String c2 EmptyString) s) = true.
Proof.
  destruct s as [|a s]; [done|]. intros _. unfold replace. simpl.
  by repeat case_match.
Qed.

Lemma title_truthy s : truthy s = true -> truthy (PyStr.title s) = true.
Proof.
  destruct s as [|a s]; [done|]. intros _. unfold PyStr.title. simpl.
  by repeat case_match.
Qed.

Lemma page_order_key_truthy url key :
  PageContent._generate_order_key url = Some key -> truthy key = true.
Proof.
  unfold PageContent._generate_order_key.
  destruct (urlparse url) as [parsed|]; simpl; [|done].
  case_match; [by intros [= <-]|].
  intros [= <-].
  pose proof (split_not_nil "/" (strip (is_char "/") (path parsed))) as Hne.
  destruct (split "/" (strip (is_char "/") (path parsed))) as [|p ps];
    [done|].
  by apply join_cons_truthy.
Qed.

Lemma page_title_truthy url title :
  PageContent._extract_title_from_url url = Some title ->
  truthy title = true.
Proof.
  unfold PageContent._extract_title_from_url.
  destruct (urlparse url) as [parsed|]; simpl; [|done].
  destruct (truthy (strip (is_char "/") (path parsed))) eqn:Hp; simpl.
  - intros [= <-]. apply title_truthy.
    do 2 apply replace_char_truthy. by apply last_segment_truthy.
  - by intros [= <-].
Qed.

(** C10: every [PageContent] that is constructed has a title and an
    order key that are not empty: a title given is kept, an empty one
    becomes ["Home"] for the root path and the last path segment, made
    readable, otherwise; an order key given is kept, an empty one is
    derived from the URL. The page is therefore valid as soon as it has
    a URL and some content. *)
Theorem page_content_title_and_key
    url title content_html text_content images order_key final_url page :
  PageContent.new url title content_html text_content images order_key
                  final_url = Some page ->
  truthy (PageContent.title page) = true /\
  truthy (PageContent.order_key page) = true /\
  (truthy title = true -> PageContent.title page = title) /\
  (truthy title = false ->
     exists parsed,
       urlparse url = Some parsed /\
       let path := strip (is_char "/") (path parsed) in
       PageContent.title page =
         if truthy path
         then PyStr.title
                (replace "_" " "
                   (replace "-" " "
                      (List.last (split "/" path) EmptyString)))
         else "Home") /\
  (truthy order_key = true -> PageContent.order_key page = order_key) /\
  (truthy order_key = false ->
     PageContent._generate_order_key url =
       Some (PageContent.order_key page)) /\
  PageContent.is_valid page =
    truthy url && (truthy content_html || truthy text_content).
Proof.
  unfold PageContent.new. intros Hnew.
  destruct (truthy order_key) eqn:Hk; simpl in Hnew.
  - destruct (truthy title) eqn:Ht; simpl in Hnew.
    + injection Hnew as <-. unfold PageContent.is_valid. simpl.
      rewrite Ht, andb_true_r. done.
    + destruct (PageContent._extract_title_from_url url) as [t|] eqn:Et;
        simpl in Hnew; [|done].
      injection Hnew as <-. unfold PageContent.is_valid. simpl.
      pose proof (page_title_truthy _ _ Et) as Htt.
      rewrite Htt, andb_true_r. split_and!; try done.
      intros _. unfold PageContent._extract_title_from_url in Et.
      destruct (urlparse url) as [parsed|]; simpl in Et; [|done].
      exists parsed. split; [done|]. simpl.
      destruct (truthy (strip (is_char "/") (path parsed)));
        simpl in Et; by injection Et as <-.
  - destruct (PageContent._generate_order_key url) as [k|] eqn:Ek;
      simpl in Hnew; [|done].
    pose proof (page_order_key_truthy _ _ Ek) as Hkt.
    destruct (truthy title) eqn:Ht; simpl in Hnew.
    + injection Hnew as <-. unfold PageContent.is_valid. simpl.
      rewrite Ht, andb_true_r. split_and!; try done.
    + destruct (PageContent._extract_title_from_url url) as [t|] eqn:Et;
        simpl in Hnew; [|done].
      injection Hnew as <-. unfold PageContent.is_valid. simpl.
      pose proof (page_title_truthy _ _ Et) as Htt.
      rewrite Htt, andb_true_r. split_and!; try done.
      intros _. unfold PageContent._extract_title_from_url in Et.
      destruct (urlparse url) as [parsed|]; simpl in Et; [|done].
      exists parsed. split; [done|]. simpl.
      destruct (truthy (strip (is_char "/") (path parsed)));
        simpl in Et; by injection Et as <-.
Qed.

(** The constructor returns whenever the URL can be parsed. *)
Lemma page_content_new_returns
    url title content_html text_content images order_key final_url :
  is_Some (urlparse url) ->
  is_Some (PageContent.new url title content_html text_content images
                           order_key final_url).
Proof.
  intros [parsed Hp]. unfold PageContent.new,
    PageContent._generate_order_key, PageContent._extract_title_from_url.
  rewrite Hp. simpl. repeat (case_match; simpl; eauto).
Qed.

Lemma page_content_new_raises
    url title content_html text_content images final_url :
  urlparse url = None ->
  PageContent.new url title content_html text_content images EmptyString
                  final_url = None.
Proof.
  intros Hp. unfold PageContent.new, PageContent._generate_order_key.
  by rewrite Hp.
Qed.

End Facts.


(** *** Keys of concrete URLs *)

Lemma page_content_title_and_key_witness :
  let page := page_of "https://docs.example.com/getting-started" "<p>x</p>" "x" in
  truthy (PageContent.title page) = true /\
  truthy (PageContent.order_key page) = true /\
  PageContent.title page = "Getting Started" /\
  PageContent.order_key page = "000_getting_started".
Proof.
  intros page.
  destruct (page_content_title_and_key (BH:=any_bracketed_host)
              "https://docs.example.com/getting-started" "" "<p>x</p>" "x"
              [] "" None page) as (Ht & Hk & _).
  { vm_compute. reflexivity. }
  split_and!; [exact Ht|exact Hk|vm_compute; reflexivity..].
Defined.

(** The reserved keys are in the declared order, the root key first. *)
Lemma reserved_keys_ascending :
  key_lt "000_index" "001_getting_started" = true /\
  key_lt "001_getting_started" "001_quickstart" = true /\
  key_lt "001_quickstart" "002_introduction" = true /\
  key_lt "002_introduction" "003_overview" = true /\
  key_lt "003_overview" "004_installation" = true /\
  key_lt "004_installation" "005_setup" = true.
Proof. vm_compute. done. Qed.

(** C3 on the code: the key of a general path starts with the depth
    index [000], the prefix of the root key, and so sorts before every
    priority slug; the path [features] sorts before the root itself. *)
Theorem general_path_sorts_before_root :
  sorter_key "https://docs.example.com/" = "000_index" /\
  sorter_key "https://docs.example.com/features" = "000_features" /\
  sorter_key "https://docs.example.com/settings" = "000_settings" /\
  sorter_key "https://docs.example.com/getting-started"
    = "001_getting_started" /\
  key_lt (sorter_key "https://docs.example.com/features")
         (sorter_key "https://docs.example.com/") = true /\
  key_lt (sorter_key "https://docs.example.com/settings")
         (sorter_key "https://docs.example.com/getting-started") = true.
Proof. vm_compute. done. Qed.

(** C9 on the code: for [/getting-started] the sorter computes the
    reserved key, the page model the plain depth key; the page is built
    with the latter, and [sort_pages] keeps it. *)
Theorem page_key_is_not_sorter_key :
  let url := "https://docs.example.com/getting-started" in
  let page := page_of url "<p>x</p>" "x" in
  sorter_key url = "001_getting_started" /\
  PageContent._generate_order_key (H:=any_bracketed_host) url
    = Some "000_getting_started" /\
  PageContent.new (H:=any_bracketed_host) url "" "<p>x</p>" "x" [] "" None
    = Some page /\
  PageContent.order_key page = "000_getting_started" /\
  PageSorter.sort_pages (H:=any_bracketed_host) [page] = [page].
Proof. vm_compute. done. Qed.

(** The two key functions differ on other paths as well. *)
Lemma page_key_is_not_sorter_key_more :
  (sorter_key "https://docs.example.com/home",
   PageContent._generate_order_key (H:=any_bracketed_host)
     "https://docs.example.com/home")
    = ("000_index", Some "000_home") /\
  (sorter_key "https://docs.example.com/01-intro/page.html",
   PageContent._generate_order_key (H:=any_bracketed_host)
     "https://docs.example.com/01-intro/page.html")
    = ("000_001_intro_001_page", Some "000_01_intro_001_page") /\
  (sorter_key "https://docs.example.com/guide.htm",
   PageContent._generate_order_key (H:=any_bracketed_host)
     "https://docs.example.com/guide.htm")
    = ("000_guide", Some "000_guide.htm").
Proof. vm_compute. done. Qed.

(** With the keys of the page model, [sort_pages] puts [/features] before
    the root page and before [/getting-started]. *)
Lemma sort_pages_on_code :
  let root := page_of "https://docs.example.com/" "<p>r</p>" "r" in
  let started := page_of "https://docs.example.com/getting-started" "<p>g</p>" "g" in
  let features := page_of "https://docs.example.com/features" "<p>f</p>" "f" in
  PageSorter.sort_pages (H:=any_bracketed_host) [root; started; features]
    = [features; started; root].
Proof. vm_compute. done. Qed.

End SorterFacts.

(** ** De-duplication in the PDF generator *)

Module DedupFacts.
Import PyStr PDFGenerator DedupSpec.

Lemma dedup_go_sublist seen pages : dedup_go seen pages `sublist_of` pages.
Proof.
  revert seen. induction pages as [|p rest IH]; intros seen; simpl.
  - constructor.
  - case_bool_decide.
    + apply sublist_cons, IH.
    + apply sublist_skip, IH.
Qed.

Lemma dedup_go_unseen seen pages q :
  q ∈ dedup_go seen pages -> check_url q ∉ seen.
Proof.
  revert seen. induction pages as [|p rest IH]; intros seen; simpl.
  - by intros ?%elem_of_nil.
  - case_bool_decide as Hp.
    + apply IH.
    + intros [->|Hq]%elem_of_cons; [done|].
      apply IH in Hq. set_solver.
Qed.

Lemma dedup_go_nodup seen pages : NoDup (check_url <$> dedup_go seen pages).
Proof.
  revert seen. induction pages as [|p rest IH]; intros seen; simpl.
  - constructor.
  - case_bool_decide as Hp; [apply IH|].
    simpl. constructor; [|apply IH].
    intros (q & Hk & Hq)%list_elem_of_fmap.
    apply dedup_go_unseen in Hq. set_solver.
Qed.

Lemma dedup_go_covers seen pages p :
  p ∈ pages -> check_url p ∉ seen ->
  exists q, q ∈ dedup_go seen pages /\ check_url q = check_url p.
Proof.
  revert seen. induction pages as [|p0 rest IH]; intros seen; simpl.
  - by intros ?%elem_of_nil.
  - intros [->|Hin]%elem_of_cons Hns.
    + rewrite bool_decide_eq_false_2 by done.
      exists p0. split; [by left|done].
    + case_bool_decide as Hp0.
      * by apply IH.
      * destruct (decide (check_url p = check_url p0)) as [E|NE].
        -- exists p0. split; [by left|done].
        -- destruct (IH ({[check_url p0]} ∪ seen) Hin) as (q & Hq & Hk).
           { apply not_elem_of_union.
             split; [by apply not_elem_of_singleton|done]. }
           exists q. split; [by right|done].
Qed.

Lemma dedup_go_first seen pages q :
  q ∈ dedup_go seen pages -> first_with_key (check_url q) pages = Some q.
Proof.
  revert seen. induction pages as [|p rest IH]; intros seen; simpl.
  - by intros ?%elem_of_nil.
  - case_bool_decide as Hp.
    + intros Hq. pose proof (dedup_go_unseen _ _ _ Hq) as Hns.
      rewrite bool_decide_eq_false_2 by (intros E; congruence).
      by eapply IH.
    + intros [->|Hq]%elem_of_cons.
      * by rewrite bool_decide_eq_true_2.
      * pose proof (dedup_go_unseen _ _ _ Hq) as Hns.
        rewrite bool_decide_eq_false_2 by set_solver.
        by eapply IH.
Qed.

(** C7: [_deduplicate_pages] keys a page by its final URL when it has one
    (neither [None] nor empty) and by its request URL otherwise; the
    pages it keeps are, in the order of the input, the first page of
    each key and no other. Two pages with the same final URL leave one
    page, the first, also after the sort that follows. *)
Theorem deduplicate_keeps_first {BH : UrlParse.BracketedHost}
    (pages : list PageContent.t) :
  let kept := _deduplicate_pages pages in
  kept `sublist_of` pages /\
  NoDup (check_url <$> kept) /\
  (forall p, p ∈ pages -> exists q, q ∈ kept /\ check_url q = check_url p) /\
  (forall q, q ∈ kept -> first_with_key (check_url q) pages = Some q) /\
  (forall p f, PageContent.final_url p = Some f -> truthy f = true ->
               check_url p = f) /\
  (forall p, PageContent.final_url p = None ->
             check_url p = PageContent.url p) /\
  (forall p1 p2 f,
      PageContent.final_url p1 = Some f ->
      PageContent.final_url p2 = Some f -> truthy f = true ->
      _deduplicate_pages [p1; p2] = [p1] /\
      assemble_pages [p1; p2] = [PageSorter.fill_order_key p1]).
Proof.
  intros kept. unfold kept, _deduplicate_pages. split_and!.
  - apply dedup_go_sublist.
  - apply dedup_go_nodup.
  - intros p Hp. apply dedup_go_covers; [done|set_solver].
  - intros q. apply dedup_go_first.
  - intros p f Hf Ht. unfold check_url. by rewrite Hf, Ht.
  - intros p Hf. unfold check_url. by rewrite Hf.
  - intros p1 p2 f H1 H2 Ht.
    assert (E : dedup_go ∅ [p1; p2] = [p1]).
    { simpl. rewrite bool_decide_eq_false_2 by set_solver.
      assert (check_url p2 = check_url p1) as ->
        by (unfold check_url; by rewrite H1, H2, Ht).
      rewrite bool_decide_eq_true_2 by set_solver. done. }
    split; [done|].
    unfold assemble_pages, _deduplicate_pages. by rewrite E.
Qed.

Lemma deduplicate_keeps_first_witness :
  _deduplicate_pages [redirected_a; redirected_b] = [redirected_a] /\
  assemble_pages (H:=UrlParse.any_bracketed_host) [redirected_a; redirected_b]
    = [redirected_a].
Proof.
  destruct (deduplicate_keeps_first (BH:=UrlParse.any_bracketed_host) [])
    as (_ & _ & _ & _ & _ & _ & Htwo).
  apply (Htwo redirected_a redirected_b "https://docs.example.com/welcome");
    reflexivity.
Defined.

End DedupFacts.

(** ** The image classifier and the fallback of [parse_page] *)

Module ParserFacts.
Import PyStr UrlParse ContentParser ParserSpec.

Lemma meaningful_alt_is_documentation img src :
  (10 < String.length (stripped_alt img))%nat ->
  _is_documentation_image img src = true.
Proof.
  intros Halt. unfold _is_documentation_image.
  destruct (contains "codebase-indexing" (lower src)); [done|].
  destruct (in_frame img); [done|].
  fold (stripped_alt img).
  destruct (stripped_alt img) as [|c s] eqn:E; [simpl in Halt; lia|].
  simpl truthy. apply Nat.ltb_lt in Halt. by rewrite Halt.
Qed.

(** C8, as amended: an image whose source URL matches a documentation
    pattern and whose alt text, once the white space around it is
    stripped, is longer than 10 characters is content, whatever its
    width and height. *)
Theorem meaningful_alt_is_content img src :
  matches_doc_pattern src = true ->
  (10 < String.length (stripped_alt img))%nat ->
  _is_ui_icon img src = false.
Proof.
  intros _ Halt. unfold _is_ui_icon.
  by rewrite meaningful_alt_is_documentation.
Qed.

(** For a source URL that matches a documentation pattern, exactly the
    app logo outside a frame with a short alt text is taken for an
    icon. *)
Lemma doc_pattern_icon_exactly img src :
  matches_doc_pattern src = true ->
  _is_ui_icon img src =
    contains "app-logo.svg" (lower src) &&
    negb (contains "codebase-indexing" (lower src)) &&
    negb (in_frame img) &&
    negb (10 <? String.length (stripped_alt img))%nat.
Proof.
  intros Hsrc. unfold _is_ui_icon, _is_documentation_image.
  fold (stripped_alt img). fold (matches_doc_pattern src). rewrite Hsrc.
  destruct (contains "codebase-indexing" (lower src));
    [by rewrite andb_false_r|].
  destruct (in_frame img); [by rewrite andb_false_r|].
  assert (Ht : truthy (stripped_alt img) &&
               (10 <? String.length (stripped_alt img))%nat
               = (10 <? String.length (stripped_alt img))%nat).
  { destruct (stripped_alt img); [done|]. done. }
  rewrite Ht.
  destruct (10 <? String.length (stripped_alt img))%nat;
    [by rewrite andb_false_r|].
  destruct (contains "app-logo.svg" (lower src)) eqn:Hlogo; [|done].
  assert (Hpat : existsb (fun pattern => contains pattern (lower src))
                         explicit_icon_url_patterns = true).
  { simpl. rewrite Hlogo. by rewrite !orb_true_r. }
  rewrite Hpat. simpl. by repeat case_match.
Qed.

(** C8 fails as stated. *)
Lemma padded_alt_logo_is_icon :
  matches_doc_pattern logo_src = true /\
  (10 < String.length (get_or_empty (img_tag logo_img) "alt"))%nat /\
  stripped_alt logo_img = "Logo" /\
  _is_ui_icon logo_img logo_src = true.
Proof. vm_compute. split_and!; (done || lia). Qed.

Lemma meaningful_alt_is_content_witness :
  _is_ui_icon screenshot_img "https://docs.example.com/images/settings.png"
    = false.
Proof.
  apply meaningful_alt_is_content.
  - vm_compute. reflexivity.
  - vm_compute. lia.
Defined.

Lemma length_take n s : (String.length (take n s) <= n)%nat.
Proof.
  revert s. induction n as [|n IH]; intros [|c s]; simpl; try lia.
  specialize (IH s). lia.
Qed.

Section ParsePage.
Context {BH : BracketedHost}.
Variable pipeline : PageData.t -> Exn (string * string * list string).
Variable basic_text_of : string -> Exn string.

Abbreviation parse_page := (parse_page pipeline basic_text_of).

Lemma new_with_title url title content_html text_content images final_url :
  is_Some (urlparse url) -> truthy title = true ->
  exists key,
    PageContent._generate_order_key url = Some key /\
    PageContent.new url title content_html text_content images EmptyString
                    final_url
      = Some (PageContent.mk url title content_html text_content images
                             key final_url).
Proof.
  intros [parsed Hp] Ht. unfold PageContent.new. simpl.
  destruct (PageContent._generate_order_key url) as [key|] eqn:Ek.
  - exists key. split; [done|]. simpl. by rewrite Ht.
  - unfold PageContent._generate_order_key in Ek. rewrite Hp in Ek.
    simpl in Ek. by case_match.
Qed.

Lemma fallback_title_truthy page_data :
  truthy (fallback_title page_data) = true.
Proof. unfold fallback_title. by case_match. Qed.

(** C4, as amended: for a page whose URL can be parsed, [parse_page]
    returns a page and raises nothing. When the pipeline raises, the
    page returned has the title of the input, or ["Error Page"]
    without one, no images, and
    - if the text of the raw HTML can be extracted, its first 1000
      characters as text content, set in the marker paragraph and a
      [<pre>] in the content markup;
    - if that extraction raises as well, the message of the first
      exception after ["Error parsing content: "] as text content,
      set in a paragraph in the content markup.
    In both cases the page has a title and content, and it is valid
    when its URL is not empty. *)
Theorem parse_page_fallback page_data :
  is_Some (urlparse (PageData.url page_data)) ->
  exists page,
    parse_page page_data = Ok page /\
    forall e, pipeline page_data = Raise e ->
      PageContent.url page = PageData.url page_data /\
      PageContent.title page = fallback_title page_data /\
      PageContent.images page = [] /\
      match basic_text_of (PageData.html_content page_data) with
      | Ok text =>
          PageContent.text_content page = take 1000 text /\
          (String.length (PageContent.text_content page) <= 1000)%nat /\
          PageContent.content_html page =
            "<p>Content parsing failed. Raw text preview:</p><pre>" +:+
            take 1000 text +:+ "</pre>"
      | Raise _ =>
          PageContent.text_content page = "Error parsing content: " +:+ e /\
          PageContent.content_html page =
            "<p>Error parsing content: " +:+ e +:+ "</p>"
      end /\
      truthy (PageContent.title page) = true /\
      truthy (PageContent.content_html page) = true /\
      PageContent.is_valid page = truthy (PageData.url page_data).
Proof.
  intros Hurl. unfold ContentParser.parse_page, try_body.
  destruct (pipeline page_data) as [[[html text] imgs]|e] eqn:Hpipe.
  - destruct (SorterFacts.page_content_new_returns
                (PageData.url page_data) (PageData.title page_data)
                html text imgs EmptyString (PageData.final_url page_data)
                Hurl) as [page Hpage].
    rewrite Hpage. simpl. exists page. split; [done|]. intros e. done.
  - unfold try_fallback.
    destruct (basic_text_of (PageData.html_content page_data))
      as [text|e'] eqn:Hbasic.
    + unfold preview_page.
      destruct (new_with_title (PageData.url page_data)
                  (fallback_title page_data)
                  ("<p>Content parsing failed. Raw text preview:</p><pre>"
                   +:+ take 1000 text +:+ "</pre>")
                  (take 1000 text) [] None Hurl
                  (fallback_title_truthy page_data)) as (key & _ & Hnew).
      rewrite Hnew. simpl. eexists. split; [done|].
      intros e0 [= <-]. simpl. split_and!; try done.
      * apply length_take.
      * apply fallback_title_truthy.
      * unfold PageContent.is_valid. simpl.
        by rewrite fallback_title_truthy, !andb_true_r.
    + unfold error_page.
      destruct (new_with_title (PageData.url page_data)
                  (fallback_title page_data)
                  ("<p>Error parsing content: " +:+ e +:+ "</p>")
                  ("Error parsing content: " +:+ e) [] None Hurl
                  (fallback_title_truthy page_data)) as (key & _ & Hnew).
      rewrite Hnew. simpl. eexists. split; [done|].
      intros e0 [= <-]. simpl. split_and!; try done.
      * apply fallback_title_truthy.
      * unfold PageContent.is_valid. simpl.
        by rewrite fallback_title_truthy, !andb_true_r.
Qed.

(** A URL that [urlparse] rejects makes every construction of the page
    raise, the last one outside any handler. *)
Lemma parse_page_raises_on_bad_url page_data :
  urlparse (PageData.url page_data) = None ->
  exists e, parse_page page_data = Raise e.
Proof.
  intros Hurl. unfold ContentParser.parse_page, try_body, try_fallback,
    preview_page, error_page.
  destruct (pipeline page_data) as [[[html text] imgs]|e];
    destruct (basic_text_of (PageData.html_content page_data)) as [t|e'];
    repeat (rewrite (SorterFacts.page_content_new_raises _ _ _ _ _ _ Hurl);
            simpl);
    eauto.
Qed.

End ParsePage.


(** *** [parse_page] on concrete pages *)

(** C4 fails as stated: when the text extraction of the first handler
    raises as well, the page carries the message of the exception and no
    preview of the text. *)
Lemma fallback_without_preview :
  raising_pipeline guide_page = Raise "maximum recursion depth exceeded" /\
  parse_page (H:=any_bracketed_host) raising_pipeline raising_text guide_page
    = Ok (PageContent.mk "https://docs.example.com/guide" "Error Page"
            "<p>Error parsing content: maximum recursion depth exceeded</p>"
            "Error parsing content: maximum recursion depth exceeded"
            [] "000_guide" None) /\
  ~ preview_on_failure (BH:=any_bracketed_host) raising_pipeline raising_text
      guide_page.
Proof.
  split_and!; [reflexivity|vm_compute; reflexivity|].
  intros Hclaim.
  destruct (Hclaim _ eq_refl) as (page & text & _ & Htext & _).
  discriminate Htext.
Qed.

Lemma parse_page_fallback_witness :
  exists page,
    parse_page (H:=any_bracketed_host) raising_pipeline plain_text guide_page
      = Ok page /\
    PageContent.title page = "Error Page" /\
    PageContent.text_content page = "Hello" /\
    PageContent.content_html page =
      "<p>Content parsing failed. Raw text preview:</p><pre>Hello</pre>".
Proof.
  destruct (parse_page_fallback (BH:=any_bracketed_host)
              raising_pipeline plain_text guide_page)
    as (page & Hpage & Hfall).
  { eexists. vm_compute. reflexivity. }
  destruct (Hfall _ eq_refl) as (_ & Htitle & _ & (Htext & _ & Hhtml) & _).
  exists page. split_and!; [exact Hpage|exact Htitle|exact Htext|exact Hhtml].
Defined.

(** A page whose URL [urlparse] rejects: [PageData] accepts it, and
    [parse_page] raises whatever the stages do. *)
Lemma parse_page_raises_on_open_bracket pipeline basic_text_of :
  PageData.new "http://[" "" "<p>x</p>" 200 [] None
    = Some (PageData.mk "http://[" "" "<p>x</p>" 200 [] None) /\
  exists e,
    parse_page (H:=any_bracketed_host) pipeline basic_text_of
      (PageData.mk "http://[" "" "<p>x</p>" 200 [] None) = Raise e.
Proof.
  split; [reflexivity|].
  apply (parse_page_raises_on_bad_url (BH:=any_bracketed_host)).
  vm_compute. reflexivity.
Qed.

End ParserFacts.

(** ** More on the crawl frontier *)

Module FrontierMoreFacts.
Import PyStr UrlParse URLManager URLManagerReset FrontierSpec FrontierMoreSpec
       FrontierFacts.

Lemma existsb_false_elem {A} (f : A -> bool) (l : list A) x :
  existsb f l = false -> x ∈ l -> f x = false.
Proof.
  intros Hex Hx. destruct (f x) eqn:Hf; [|done].
  assert (existsb f l = true); [|congruence].
  apply existsb_exists. exists x. split; [by apply list_elem_of_In|done].
Qed.

Section Facts.
Context {BH : BracketedHost}.

Lemma should_crawl_true self url :
  should_crawl self url = true -> truthy url = true /\ crawlable self url.
Proof.
  unfold should_crawl.
  destruct (truthy url); cbn [negb]; [|done].
  destruct (urlparse url) as [parsed|] eqn:Hp; [|done].
  destruct (truthy (scheme parsed)) eqn:Hs; cbn [negb orb]; [|done].
  destruct (truthy (netloc parsed)) eqn:Hn; cbn [negb orb]; [|done].
  destruct (String.eqb (netloc parsed) (domain self)) eqn:Hd; cbn [negb];
    [|done].
  destruct (truthy (fragment parsed) && negb (truthy (path parsed))); [done|].
  destruct (existsb (fun ext => endswith ext (lower (path parsed)))
                    skip_extensions) eqn:He; [done|].
  destruct (existsb (fun skip_path => contains skip_path (lower (path parsed)))
                    skip_paths) eqn:Hk; [done|].
  intros _. split; [done|]. exists parsed.
  apply String.eqb_eq in Hd. split_and!; try done.
  - intros ext. by apply (existsb_false_elem _ _ _ He).
  - intros sp. by apply (existsb_false_elem _ _ _ Hk).
Qed.

Lemma exec_queue_crawlable self c self' :
  queue_crawlable self -> exec self c = Some self' -> queue_crawlable self'.
Proof.
  intros Hq Hex u.
  destruct (exec_config _ _ _ Hex) as (_ & _ & Hd).
  rewrite (should_crawl_domain self self' u Hd).
  destruct c as [url| |url|url]; simpl in Hex.
  - destruct (add_url self url) as [r|] eqn:E; simpl in Hex; [|done].
    injection Hex as <-. apply add_url_outcome in E.
    destruct E as [?|n ? ? ?|n ? ? ? ?|n ? ? ? ? ? ?|n ? ? Hc ? ? ?]; simpl;
      try apply Hq.
    intros [Hu|Hu%list_elem_of_singleton]%elem_of_app;
      [by apply Hq|by subst].
  - injection Hex as <-. unfold get_next_url.
    destruct (_urls_to_visit self) as [|v q] eqn:Eq; simpl.
    + apply Hq.
    + intros Hu. apply Hq. rewrite Eq. apply elem_of_cons. by right.
  - unfold mark_visited in Hex.
    destruct (_normalize_url self url); simpl in Hex; [|done].
    injection Hex as <-. apply Hq.
  - unfold mark_failed in Hex.
    destruct (_normalize_url self url); simpl in Hex; [|done].
    injection Hex as <-. apply Hq.
Qed.

Lemma reachable_queue_crawlable self : reachable self -> queue_crawlable self.
Proof.
  induction 1 as [base cap self Hnew|self c self' _ IH Hex].
  - unfold new in Hnew.
    destruct (urlparse (rstrip (is_char "/") base)) as [parsed|]; [|done].
    simpl in Hnew.
    eapply (exec_queue_crawlable _ (AddUrl (rstrip (is_char "/") base)));
      [|exact Hnew].
    intros u Hu. by apply elem_of_nil in Hu.
  - by eapply exec_queue_crawlable.
Qed.

(** X1: what [get_next_url] hands out in a reachable manager is never
    empty, parses, has a scheme, is of the manager's own domain, and its
    path has none of the skipped extensions and none of the skipped path
    parts. *)
Theorem next_url_is_crawlable self url self' :
  reachable self ->
  get_next_url self = (Some url, self') ->
  truthy url = true /\ crawlable self url.
Proof.
  intros Hr Hnext. apply should_crawl_true.
  apply (reachable_queue_crawlable _ Hr).
  unfold get_next_url in Hnext.
  destruct (_urls_to_visit self) as [|v q]; [done|].
  injection Hnext as -> _. by left.
Qed.

Lemma size_insert_le (n : string) (X : gset string) :
  (size ({[n]} ∪ X) <= S (size X))%nat.
Proof.
  rewrite size_union_alt, size_singleton.
  assert (size (X ∖ {[n]}) <= size X)%nat; [|lia].
  apply subseteq_size. apply subseteq_difference_l. done.
Qed.

(** A call changes the count of URLs handed out only when it takes a URL
    from the queue. *)
Lemma exec_handed_out self c self' :
  exec self c = Some self' ->
  handed_out self' =
    handed_out self +
    match c, _urls_to_visit self with
    | GetNextUrl, _ :: _ => 1
    | _, _ => 0
    end.
Proof.
  unfold handed_out. destruct c as [url| |url|url]; simpl.
  - destruct (add_url self url) as [r|] eqn:E; simpl; [|done].
    intros [= <-]. apply add_url_outcome in E.
    destruct E; simpl; try lia.
    rewrite length_app. simpl. lia.
  - intros [= <-]. unfold get_next_url.
    destruct (_urls_to_visit self) as [|v q] eqn:Eq; simpl; rewrite ?Eq;
      simpl; lia.
  - unfold mark_visited. destruct (_normalize_url self url); simpl; [|done].
    intros [= <-]. simpl. lia.
  - unfold mark_failed. destruct (_normalize_url self url); simpl; [|done].
    intros [= <-]. simpl. lia.
Qed.

Lemma exec_counters_bound self c self' :
  counters_bound self -> exec self c = Some self' -> counters_bound self'.
Proof.
  intros [Hq Hv Hf Hs Hd] Hex.
  pose proof (exec_handed_out _ _ _ Hex) as Hh.
  assert (Hq' : 0 <= handed_out self') by (rewrite Hh; repeat case_match; lia).
  destruct c as [url| |url|url]; simpl in Hex.
  - destruct (add_url self url) as [r|] eqn:E; simpl in Hex; [|done].
    injection Hex as <-. apply add_url_outcome in E.
    destruct E as [?|n ? ? ?|n ? ? ? ?|n ? ? ? ? ? ?|n ? ? ? ? ? ?];
      split; simpl in *; try done; try lia.
    pose proof (size_insert_le n (_skipped_urls self)). lia.
  - injection Hex as <-. unfold get_next_url in *.
    destruct (_urls_to_visit self); split; simpl in *; done.
  - unfold mark_visited in Hex.
    destruct (_normalize_url self url) as [n|]; simpl in Hex; [|done].
    injection Hex as <-. split; simpl in *; try done.
    pose proof (size_insert_le n (_visited_urls self)). lia.
  - unfold mark_failed in Hex.
    destruct (_normalize_url self url) as [n|]; simpl in Hex; [|done].
    injection Hex as <-. split; simpl in *; try done.
    pose proof (size_insert_le n (_failed_urls self)). lia.
Qed.

Lemma reachable_counters_bound self : reachable self -> counters_bound self.
Proof.
  induction 1 as [base cap self Hnew|self c self' _ IH Hex].
  - unfold new in Hnew.
    destruct (urlparse (rstrip (is_char "/") base)) as [parsed|]; [|done].
    simpl in Hnew.
    eapply (exec_counters_bound _ (AddUrl (rstrip (is_char "/") base)));
      [|exact Hnew].
    split; vm_compute; discriminate.
  - by eapply exec_counters_bound.
Qed.

(** X2: in every reachable manager the counters bound what is stored: the
    queue is no longer than the discovered count (and no longer than a
    positive cap), and the visited, failed and skipped sets are no larger
    than their counters, which count every call. *)
Theorem counters_bound_sets self :
  reachable self ->
  Z.of_nat (length (_urls_to_visit self)) <= total_found (_stats self) /\
  Z.of_nat (size (_visited_urls self)) <= visited (_stats self) /\
  Z.of_nat (size (_failed_urls self)) <= failed (_stats self) /\
  Z.of_nat (size (_skipped_urls self)) <= skipped (_stats self) /\
  (forall cap, max_pages self = Some cap -> 0 < cap ->
               Z.of_nat (length (_urls_to_visit self)) <= cap).
Proof.
  intros Hr. destruct (reachable_counters_bound _ Hr) as [Hq Hv Hf Hs Hd].
  unfold handed_out in Hq. split_and!; try done; try lia.
  intros cap Hm Hpos. pose proof (total_found_le_cap _ _ Hr Hm Hpos). lia.
Qed.

(** X3: [clear] empties the manager without queueing anything, and adding
    the base URL again gives back the manager as [__init__] built it,
    whatever calls were made in between. *)
Theorem clear_then_base_is_new base cap self0 cs self :
  new base cap = Some self0 ->
  run self0 cs = Some self ->
  has_urls (clear self) = false /\
  get_next_url (clear self) = (None, clear self) /\
  snd <$> add_url (clear self) (base_url self) = Some self0.
Proof.
  intros Hnew Hrun. split_and!; [done..|].
  destruct (run_config _ _ _ Hrun) as (Hb & Hm & Hd).
  unfold new in Hnew.
  destruct (urlparse (rstrip (is_char "/") base)) as [parsed|]; [|done].
  simpl in Hnew.
  destruct (add_url _ (rstrip (is_char "/") base)) as [r|] eqn:E;
    simpl in Hnew; [|done].
  injection Hnew as <-.
  assert (Hcf : base_url (snd r) = rstrip (is_char "/") base /\
                max_pages (snd r) = cap /\ domain (snd r) = netloc parsed).
  { apply add_url_outcome in E. by destruct E. }
  destruct Hcf as (Hb0 & Hm0 & Hd0).
  unfold clear. rewrite Hb, Hm, Hd, Hb0, Hm0, Hd0. by rewrite E.
Qed.

End Facts.

Lemma next_url_is_crawlable_witness :
  truthy "https://test.com" = true /\
  crawlable (H:=any_bracketed_host) test_manager "https://test.com".
Proof.
  apply (next_url_is_crawlable (BH:=any_bracketed_host) test_manager
           "https://test.com" (snd (get_next_url test_manager))).
  - apply (reach_new (H:=any_bracketed_host) "https://test.com" None).
    vm_compute. reflexivity.
  - vm_compute. reflexivity.
Defined.

Lemma counters_bound_sets_witness :
  Z.of_nat (length (_urls_to_visit docs_manager))
    <= total_found (_stats docs_manager) /\
  (forall cap, max_pages docs_manager = Some cap -> 0 < cap ->
               Z.of_nat (length (_urls_to_visit docs_manager)) <= cap).
Proof.
  destruct (counters_bound_sets (BH:=any_bracketed_host) docs_manager)
    as (Hq & _ & _ & _ & Hcap).
  { apply (reach_new (H:=any_bracketed_host)
             "https://docs.example.com/" (Some 5)).
    vm_compute. reflexivity. }
  exact (conj Hq Hcap).
Defined.

Lemma clear_then_base_is_new_witness :
  snd <$> add_url (H:=any_bracketed_host)
            (clear (after_calls test_manager
                      [AddUrl "/page1"; GetNextUrl;
                       MarkVisited "https://test.com"]))
            "https://test.com"
    = Some test_manager.
Proof.
  destruct (clear_then_base_is_new (BH:=any_bracketed_host)
              "https://test.com" None test_manager
              [AddUrl "/page1"; GetNextUrl; MarkVisited "https://test.com"]
              (after_calls test_manager
                 [AddUrl "/page1"; GetNextUrl; MarkVisited "https://test.com"]))
    as (_ & _ & Hadd).
  - vm_compute. reflexivity.
  - vm_compute. reflexivity.
  - exact Hadd.
Defined.

End FrontierMoreFacts.

(** ** The crawl loop *)

Module CrawlFacts.
Import PyStr UrlParse URLManager FrontierSpec FrontierMoreSpec FrontierFacts
       FrontierMoreFacts SeleniumCrawler CrawlSpec.

Section Facts.
Context {BH : BracketedHost}.
Variable crawl_page : nat -> string -> option PageData.t.
Variable MAX_PAGES : option Z.

Lemma calls_after_fetch_no_next url page_data :
  GetNextUrl ∉ calls_after_fetch url page_data.
Proof.
  unfold calls_after_fetch. intros Hin.
  apply elem_of_cons in Hin as [?|Hin]; [done|].
  apply elem_of_app in Hin as [Hin|Hin].
  - repeat case_match; try by apply elem_of_nil in Hin.
    by apply list_elem_of_singleton in Hin.
  - by apply list_elem_of_fmap in Hin as (? & ? & ?).
Qed.

Lemma run_handed_out self cs self' :
  run self cs = Some self' -> GetNextUrl ∉ cs ->
  handed_out self' = handed_out self.
Proof.
  revert self. induction cs as [|c cs IH]; intros self; simpl.
  - by intros [= <-].
  - destruct (exec self c) as [s1|] eqn:E; simpl; [|done].
    intros Hr [Hc Hno]%not_elem_of_cons.
    rewrite (IH _ Hr Hno), (exec_handed_out _ _ _ E).
    destruct c; try done; lia.
Qed.

(** One turn of the loop that takes a URL: the manager after the URL was
    taken has handed out one URL more. *)
Lemma next_handed_out self url self1 :
  get_next_url self = (Some url, self1) ->
  exec self GetNextUrl = Some self1 /\ handed_out self1 = handed_out self + 1.
Proof.
  intros Hn.
  assert (Hex : exec self GetNextUrl = Some self1) by (simpl; by rewrite Hn).
  split; [done|]. rewrite (exec_handed_out _ _ _ Hex).
  unfold get_next_url in Hn. by destruct (_urls_to_visit self).
Qed.

Lemma limit_not_reached m crawled :
  limit_reached (Some m) crawled = false -> 0 < m ->
  Z.of_nat (length crawled) < m.
Proof.
  unfold limit_reached. intros Hl Hm.
  apply andb_false_iff in Hl as [Hl|Hl].
  - apply negb_false_iff, Z.eqb_eq in Hl. lia.
  - apply Z.leb_gt in Hl. lia.
Qed.

Lemma crawl_loop_returned steps n self crawled pages self' :
  reachable self ->
  Forall (fun p => PageData.is_valid p = true) crawled ->
  Z.of_nat (length crawled) <= handed_out self ->
  (forall m, MAX_PAGES = Some m -> 0 < m -> Z.of_nat (length crawled) <= m) ->
  crawl_loop crawl_page MAX_PAGES steps n self crawled = Returned pages self' ->
  reachable self' /\
  max_pages self' = max_pages self /\
  Forall (fun p => PageData.is_valid p = true) pages /\
  Z.of_nat (length pages) <= handed_out self' /\
  (forall m, MAX_PAGES = Some m -> 0 < m -> Z.of_nat (length pages) <= m).
Proof.
  revert n self crawled.
  induction steps as [|steps IH]; intros n self crawled Hr Hv Hh Hm;
    cbn [crawl_loop]; [done|].
  destruct (has_urls self); cbn [negb]; [|by intros [= <- <-]].
  destruct (limit_reached MAX_PAGES crawled) eqn:Hlim; [by intros [= <- <-]|].
  destruct (get_next_url self) as [[url|] self1] eqn:Hnext.
  2:{ intros [= <- <-]. unfold get_next_url in Hnext.
      destruct (_urls_to_visit self); by simplify_eq. }
  destruct (next_handed_out _ _ _ Hnext) as [Hex Hh1].
  assert (Hr1 : reachable self1) by (by eapply reach_exec).
  assert (Hm1 : max_pages self1 = max_pages self)
    by apply (exec_config _ _ _ Hex).
  destruct (truthy url); cbn [negb].
  2:{ intros [= <- <-]. split_and!; try done. lia. }
  assert (Hskip : crawl_loop crawl_page MAX_PAGES steps (S n) self1 crawled
                  = Returned pages self' ->
                  reachable self' /\ max_pages self' = max_pages self /\
                  Forall (fun p => PageData.is_valid p = true) pages /\
                  Z.of_nat (length pages) <= handed_out self' /\
                  (forall m, MAX_PAGES = Some m -> 0 < m ->
                             Z.of_nat (length pages) <= m)).
  { intros Hloop. rewrite <- Hm1.
    eapply IH; [exact Hr1|exact Hv|lia|exact Hm|exact Hloop]. }
  destruct (crawl_page n url) as [page_data|]; [|done].
  destruct (PageData.is_valid page_data) eqn:Hvalid; [|done].
  destruct (run self1 (calls_after_fetch url page_data)) as [self2|] eqn:Hrun;
    [|done].
  intros Hloop.
  pose proof (run_handed_out _ _ _ Hrun (calls_after_fetch_no_next _ _)) as Hh2.
  destruct (run_config _ _ _ Hrun) as (_ & Hm2 & _).
  rewrite <- Hm1, <- Hm2.
  apply (IH _ _ _ (reachable_run _ _ _ Hr1 Hrun)) in Hloop; [done|..].
  - apply Forall_app. split; [done|]. by apply Forall_singleton.
  - rewrite length_app. simpl. lia.
  - intros m HM Hpos. rewrite length_app. simpl.
    rewrite HM in Hlim. pose proof (limit_not_reached _ _ Hlim Hpos). lia.
Qed.

Lemma new_handed_out base cap self :
  new base cap = Some self -> handed_out self = 0 /\ max_pages self = cap.
Proof.
  unfold new.
  destruct (urlparse (rstrip (is_char "/") base)) as [parsed|]; [|done].
  simpl.
  destruct (add_url _ (rstrip (is_char "/") base)) as [r|] eqn:E; simpl;
    [|done].
  intros [= <-]. apply add_url_outcome in E. by destruct E.
Qed.

(** X4: whatever the fetches give, the pages that [crawl_all] returns for a
    freshly built manager are all valid, they are no more than the URLs the
    frontier has handed out (with the URLs still queued, no more than the
    discovered count), no more than a positive cap of the frontier and no
    more than a positive [MAX_PAGES] of the configuration. *)
Theorem crawl_all_bounded base cap self steps pages self' :
  new base cap = Some self ->
  crawl_all crawl_page MAX_PAGES steps self = Returned pages self' ->
  Forall (fun p => PageData.is_valid p = true) pages /\
  Z.of_nat (length pages) + Z.of_nat (length (_urls_to_visit self'))
    <= total_found (_stats self') /\
  (forall c, cap = Some c -> 0 < c -> Z.of_nat (length pages) <= c) /\
  (forall m, MAX_PAGES = Some m -> 0 < m -> Z.of_nat (length pages) <= m).
Proof.
  intros Hnew Hcrawl. destruct (new_handed_out _ _ _ Hnew) as [Hh Hcap].
  unfold crawl_all in Hcrawl.
  apply crawl_loop_returned in Hcrawl as (Hr & Hm & Hv & Hlen & Hmax).
  - unfold handed_out in Hlen. split_and!; [done|lia| |done].
    intros c -> Hpos.
    assert (total_found (_stats self') <= c).
    { apply total_found_le_cap; [done| |done]. by rewrite Hm. }
    lia.
  - by eapply reach_new.
  - constructor.
  - simpl. lia.
  - simpl. lia.
Qed.

Lemma crawl_loop_finishes steps n self crawled c :
  reachable self -> max_pages self = Some c -> 0 < c ->
  (Z.to_nat (c - handed_out self) < steps)%nat ->
  crawl_loop crawl_page MAX_PAGES steps n self crawled <> Unfinished.
Proof.
  revert n self crawled.
  induction steps as [|steps IH]; intros n self crawled Hr Hm Hpos Hsteps;
    cbn [crawl_loop]; [lia|].
  destruct (has_urls self) eqn:Hhas; cbn [negb]; [|done].
  destruct (limit_reached MAX_PAGES crawled); [done|].
  destruct (get_next_url self) as [[url|] self1] eqn:Hnext; [|done].
  destruct (next_handed_out _ _ _ Hnext) as [Hex Hh1].
  assert (Hr1 : reachable self1) by (by eapply reach_exec).
  assert (Hm1 : max_pages self1 = Some c)
    by (destruct (exec_config _ _ _ Hex) as (_ & -> & _); done).
  pose proof (reachable_counters_bound _ Hr1) as [Hq1 _ _ _ _].
  pose proof (total_found_le_cap _ _ Hr1 Hm1 Hpos) as Htf1.
  assert (Hle : handed_out self1 <= c) by (unfold handed_out in *; lia).
  destruct (truthy url); cbn [negb]; [|done].
  destruct (crawl_page n url) as [page_data|].
  - destruct (PageData.is_valid page_data).
    + destruct (run self1 (calls_after_fetch url page_data)) as [self2|]
        eqn:Hrun; [|done].
      pose proof (run_handed_out _ _ _ Hrun (calls_after_fetch_no_next _ _))
        as Hh2.
      destruct (run_config _ _ _ Hrun) as (_ & Hm2 & _).
      apply IH; [by eapply reachable_run|by rewrite Hm2|done|lia].
    + apply IH; [done..|lia].
  - apply IH; [done..|lia].
Qed.

(** X5: with a positive page cap [c] the loop of [crawl_all] ends within
    [c] fetches: run for more than [c] iterations on a freshly built
    manager it has returned or raised, whatever the fetches give. *)
Theorem crawl_all_finishes base c self steps :
  new base (Some c) = Some self -> 0 < c ->
  (Z.to_nat c < steps)%nat ->
  crawl_all crawl_page MAX_PAGES steps self <> Unfinished.
Proof.
  intros Hnew Hpos Hsteps. destruct (new_handed_out _ _ _ Hnew) as [Hh Hcap].
  apply (crawl_loop_finishes _ _ _ _ c); [by eapply reach_new|done|done|].
  rewrite Hh. by rewrite Z.sub_0_r.
Qed.

End Facts.


Lemma crawl_all_bounded_witness :
  Forall (fun p => PageData.is_valid p = true) (returned_pages small_crawl) /\
  Z.of_nat (length (returned_pages small_crawl)) <= 2.
Proof.
  destruct (crawl_all_bounded (BH:=any_bracketed_host) small_site (Some 2)
              "https://test.com" (Some 2) capped_manager 3
              (returned_pages small_crawl) (returned_manager small_crawl))
    as (Hv & _ & Hcap & _).
  - vm_compute. reflexivity.
  - vm_compute. reflexivity.
  - split; [exact Hv|]. apply Hcap; [reflexivity|lia].
Defined.

Lemma crawl_all_finishes_witness : small_crawl <> Unfinished.
Proof.
  apply (crawl_all_finishes (BH:=any_bracketed_host) small_site (Some 2)
           "https://test.com" 2 capped_manager 3).
  - vm_compute. reflexivity.
  - lia.
  - vm_compute. lia.
Defined.

End CrawlFacts.

(** ** More on the page sorter *)

Module SorterMoreFacts.
Import PyStr UrlParse PageSorter PageGroups SorterSpec SorterMoreSpec.

Lemma leb_false_ne p q :
  String.leb (PageContent.order_key p) (PageContent.order_key q) = false ->
  PageContent.order_key q <> PageContent.order_key p.
Proof.
  intros Hle E. rewrite E in Hle.
  pose proof (reflexivity (R:=String.le) (PageContent.order_key p)) as Hr.
  unfold String.le in Hr. rewrite Hle in Hr. done.
Qed.

Lemma insert_page_perm p l : insert_page p l ≡ₚ p :: l.
Proof.
  induction l as [|q l IH]; simpl; [done|].
  case_match; [done|]. rewrite IH. apply Permutation_swap.
Qed.

Lemma insert_page_with_key key p l :
  with_key key (insert_page p l) = with_key key (p :: l).
Proof.
  unfold with_key. induction l as [|q l IH]; simpl; [done|].
  destruct (String.leb _ _) eqn:Hle; [done|].
  apply leb_false_ne in Hle.
  rewrite (filter_cons _ q (insert_page p l)), IH, !filter_cons.
  repeat case_decide; congruence.
Qed.

Lemma insert_page_sorted p l :
  StronglySorted key_le l -> StronglySorted key_le (insert_page p l).
Proof.
  induction 1 as [|q l Hs IH Hall]; simpl.
  - repeat constructor.
  - destruct (String.leb _ _) eqn:Hle.
    + constructor; [by constructor|].
      assert (Hpq : key_le p q) by (unfold key_le, String.le; by rewrite Hle).
      constructor; [done|].
      eapply Forall_impl; [exact Hall|].
      intros r Hqr. unfold key_le in *. by etrans.
    + constructor; [done|].
      rewrite insert_page_perm. constructor; [|done].
      unfold key_le.
      destruct (total String.le (PageContent.order_key q)
                  (PageContent.order_key p)) as [?|Hpq]; [done|].
      unfold String.le in Hpq. by rewrite Hle in Hpq.
Qed.

Lemma sorted_by_key_perm l : sorted_by_key l ≡ₚ l.
Proof.
  induction l as [|p l IH]; simpl; [done|].
  by rewrite insert_page_perm, IH.
Qed.

Lemma sorted_by_key_sorted l : StronglySorted key_le (sorted_by_key l).
Proof.
  induction l as [|p l IH]; simpl; [constructor|by apply insert_page_sorted].
Qed.

Lemma sorted_by_key_with_key key l :
  with_key key (sorted_by_key l) = with_key key l.
Proof.
  induction l as [|p l IH]; simpl; [done|].
  rewrite insert_page_with_key. unfold with_key in *.
  by rewrite !filter_cons, IH.
Qed.

Lemma startswith_app p s : startswith p (p +:+ s) = true.
Proof.
  unfold startswith. induction p as [|a p IH]; simpl.
  - by destruct s.
  - by destruct (ascii_dec a a).
Qed.

(** X6: [sort_pages] returns the pages it was given, each once, a page
    without a key with the key of [generate_order_key]; they are in
    ascending order of their keys, and pages with the same key keep the
    order they came in. *)
Theorem sort_pages_sorted_stable `{BracketedHost} (pages : list PageContent.t) :
  sort_pages pages ≡ₚ fill_order_key <$> pages /\
  StronglySorted key_le (sort_pages pages) /\
  (forall key, with_key key (sort_pages pages)
               = with_key key (fill_order_key <$> pages)) /\
  (forall page, truthy (PageContent.order_key page) = true ->
                fill_order_key page = page).
Proof.
  unfold sort_pages. split_and!.
  - apply sorted_by_key_perm.
  - apply sorted_by_key_sorted.
  - intros key. apply sorted_by_key_with_key.
  - intros page Hk. unfold fill_order_key. by rewrite Hk.
Qed.

(** X7: every key of [generate_order_key], and every key the page model
    derives, starts with three digits and an underscore; the key of a path
    that is neither a root path nor in the priority table starts with
    [000_]. *)
Theorem order_keys_have_rank `{BracketedHost} (url : string) :
  has_rank_prefix (generate_order_key url) = true /\
  (forall key, PageContent._generate_order_key url = Some key ->
               has_rank_prefix key = true) /\
  (forall path,
      truthy path = true ->
      mem path ["index"; "index.html"; "home"] = false ->
      lookup_page path priority_pages = None ->
      startswith "000_" (key_of_path path) = true).
Proof.
  assert (Hgen : forall (f : nat -> string -> string) g path,
             (forall part, f O part = "000_" +:+ g part) ->
             exists rest, join "_" (imap f (split "/" path)) = "000_" +:+ rest).
  { intros f g path Hf.
    pose proof (SorterFacts.split_not_nil "/" path) as Hne.
    destruct (split "/" path) as [|part parts]; [done|].
    rewrite imap_cons, Hf.
    destruct (imap (f ∘ S) parts) as [|y ys]; [by eexists|].
    by exists (g part +:+ "_" +:+ join "_" (y :: ys)). }
  split_and!.
  - unfold generate_order_key.
    destruct (urlparse url) as [parsed|]; [|done].
    unfold key_of_path.
    destruct (negb _ || mem _ _); [done|].
    destruct (lookup_page _ priority_pages) as [key|] eqn:Hl.
    + unfold priority_pages in Hl. simpl in Hl.
      repeat (case_match; [by injection Hl as <-|]). done.
    + destruct (Hgen (fun i part => fmt_03d (Z.of_nat i) +:+ "_" +:+
                                    _clean_path_part part)
                     _clean_path_part
                     (strip (is_char "/") (path parsed))) as [rest ->];
        done.
  - intros key. unfold PageContent._generate_order_key.
    destruct (urlparse url) as [parsed|]; simpl; [|done].
    case_match; [by intros [= <-]|]. intros [= <-].
    destruct (Hgen (fun i part =>
                      PageContent.order_part i
                        (replace "-" "_" (replace ".html" "" part)))
                   (fun part => replace "-" "_" (replace ".html" "" part))
                   (strip (is_char "/") (path parsed))) as [rest ->];
      done.
  - intros path Ht Hm Hl. unfold key_of_path. rewrite Ht, Hm, Hl. simpl.
    destruct (Hgen (fun i part => fmt_03d (Z.of_nat i) +:+ "_" +:+
                                  _clean_path_part part)
                   _clean_path_part path) as [rest ->]; [done|].
    apply startswith_app.
Qed.

Lemma append_to_section_keys section page sections :
  (append_to_section section page sections).*1 =
    if bool_decide (section ∈ sections.*1) then sections.*1
    else sections.*1 ++ [section].
Proof.
  induction sections as [|[name pages] rest IH]; simpl; [done|].
  destruct (String.eqb name section) eqn:E.
  - apply String.eqb_eq in E as ->. simpl.
    rewrite bool_decide_eq_true_2; [done|]. by left.
  - apply String.eqb_neq in E. rewrite !fmap_cons, IH. cbn [fst].
    case_bool_decide as Hin.
    + rewrite bool_decide_eq_true_2; [done|]. by right.
    + rewrite bool_decide_eq_false_2; [done|].
      intros [?|?]%elem_of_cons; [congruence|by apply Hin].
Qed.

Lemma append_to_section_pages section page sections :
  concat (append_to_section section page sections).*2
    ≡ₚ concat sections.*2 ++ [page].
Proof.
  induction sections as [|[name pages] rest IH]; simpl; [done|].
  destruct (String.eqb name section); simpl.
  - rewrite <- !(assoc_L (++)). f_equiv. apply Permutation_app_comm.
  - by rewrite IH, (assoc_L (++)).
Qed.

Lemma append_to_section_elem section page sections name pages :
  (name, pages) ∈ append_to_section section page sections ->
  (name, pages) ∈ sections \/
  name = section /\
  exists before, pages = before ++ [page] /\
                 (before = [] \/ (name, before) ∈ sections).
Proof.
  induction sections as [|[name' pages'] rest IH]; simpl.
  - intros [= -> ->]%list_elem_of_singleton. right. split; [done|].
    exists []. split; [done|by left].
  - destruct (String.eqb name' section) eqn:E.
    + apply String.eqb_eq in E as ->.
      intros [[= -> ->]|Hin]%elem_of_cons.
      * right. split; [done|]. exists pages'. split; [done|].
        right. by left.
      * left. by right.
    + intros [[= -> ->]|Hin]%elem_of_cons; [left; by left|].
      destruct (IH Hin) as [?|(-> & before & -> & [->|?])].
      * left. by right.
      * right. split; [done|]. exists []. split; [done|by left].
      * right. split; [done|]. exists before. split; [done|].
        right. by right.
Qed.

Section Groups.
Context {BH : BracketedHost}.

Lemma append_to_section_ok page sections :
  sections_ok sections ->
  sections_ok (append_to_section (section_of page) page sections).
Proof.
  intros [Hnd Hall]. split.
  - rewrite append_to_section_keys. case_bool_decide; [done|].
    apply NoDup_app. split_and!; [done| |apply NoDup_singleton].
    intros x Hx ->%list_elem_of_singleton. done.
  - intros name pages Hin.
    apply append_to_section_elem in Hin
      as [Hin|(-> & before & -> & Hbefore)]; [by apply Hall|].
    split; [by destruct before|].
    intros p [Hp|Hp]%elem_of_app;
      [|by apply list_elem_of_singleton in Hp as ->].
    destruct Hbefore as [->|Hin]; [by apply elem_of_nil in Hp|].
    by apply (Hall _ _ Hin).
Qed.

Lemma foldl_sections pages sections :
  sections_ok sections ->
  let result :=
    foldl (fun sections page =>
             append_to_section (section_of page) page sections)
          sections pages in
  sections_ok result /\ concat result.*2 ≡ₚ concat sections.*2 ++ pages.
Proof.
  revert sections. induction pages as [|p pages IH]; intros sections Hok; simpl.
  - split; [done|]. by rewrite (right_id_L [] (++)).
  - destruct (IH _ (append_to_section_ok p _ Hok)) as [Hok' Hperm].
    split; [done|]. rewrite Hperm, append_to_section_pages.
    by rewrite <- (assoc_L (++)).
Qed.

(** X8: [group_pages_by_section] puts every page into one group, the group
    of its section: the names of the groups are distinct, the groups
    together hold the pages given, each once, no group is empty, every
    page of a group has the name of the group as its section, and each
    group is in ascending order of the keys. *)
Theorem groups_partition_pages (pages : list PageContent.t) :
  let groups := group_pages_by_section pages in
  NoDup groups.*1 /\
  concat groups.*2 ≡ₚ pages /\
  forall name group, (name, group) ∈ groups ->
    group <> [] /\
    StronglySorted key_le group /\
    forall p, p ∈ group -> section_of p = name.
Proof.
  intros groups. unfold groups, group_pages_by_section.
  destruct (foldl_sections pages []) as [[Hnd Hall] Hperm].
  { split; [constructor|]. intros ?? Hin. by apply elem_of_nil in Hin. }
  set (sections := foldl _ [] pages) in *.
  split_and!.
  - rewrite <- list_fmap_compose.
    by rewrite (list_fmap_ext _ fst sections) by (by intros ? []).
  - rewrite <- Hperm. simpl.
    clear. induction sections as [|[name g] rest IH]; simpl; [done|].
    by rewrite sorted_by_key_perm, IH.
  - intros name group ([name' g] & Heq & Hin)%list_elem_of_fmap.
    injection Heq as -> ->.
    destruct (Hall _ _ Hin) as [Hne Hsec]. simpl. split_and!.
    + intros E. apply Hne. apply Permutation_nil_r.
      by rewrite <- (sorted_by_key_perm g), E.
    + apply sorted_by_key_sorted.
    + intros p Hp. apply Hsec. by rewrite <- (sorted_by_key_perm g).
Qed.

End Groups.

Lemma groups_partition_pages_witness :
  section_of (H:=any_bracketed_host)
    (page_of "https://docs.example.com/getting-started/install" "<p>i</p>" "i")
    = "Getting Started".
Proof.
  set (root := page_of "https://docs.example.com/" "<p>r</p>" "r").
  set (install :=
         page_of "https://docs.example.com/getting-started/install"
                 "<p>i</p>" "i").
  destruct (groups_partition_pages (BH:=any_bracketed_host) [root; install])
    as (_ & _ & Hgroups).
  destruct (Hgroups "Getting Started" [install]) as (_ & _ & Hsection).
  - assert (E : group_pages_by_section (H:=any_bracketed_host) [root; install]
                = [("Home", [root]); ("Getting Started", [install])])
      by (vm_compute; reflexivity).
    rewrite E. apply elem_of_cons. right. apply elem_of_cons. by left.
  - apply Hsection. apply elem_of_cons. by left.
Defined.

Lemma sort_pages_sorted_stable_witness :
  PageSorter.fill_order_key (H:=any_bracketed_host)
    (page_of "https://docs.example.com/features" "<p>f</p>" "f")
    = page_of "https://docs.example.com/features" "<p>f</p>" "f".
Proof.
  destruct (sort_pages_sorted_stable (H:=any_bracketed_host) [])
    as (_ & _ & _ & Hfill).
  apply Hfill. vm_compute. reflexivity.
Defined.

Lemma order_keys_have_rank_witness :
  startswith "000_" (key_of_path "blog/extra") = true.
Proof.
  destruct (order_keys_have_rank (H:=any_bracketed_host)
              "https://docs.example.com/blog/extra") as (_ & _ & Hgeneral).
  apply Hgeneral; vm_compute; reflexivity.
Defined.

End SorterMoreFacts.

(** ** More on the content parser *)

Module ParserMoreFacts.
Import PyStr ContentParser ImageProcessing NavigationText PageCounts
       ParserSpec ParserMoreSpec.

Lemma absolute_src_is_absolute domain src :
  is_absolute (absolute_src domain src) = true.
Proof.
  unfold absolute_src, is_absolute.
  destruct (startswith "/" src).
  { apply orb_true_iff. right. apply SorterMoreFacts.startswith_app. }
  destruct (startswith "http://" src || startswith "https://" src) eqn:E;
    cbn [negb]; [done|].
  apply orb_true_iff. right. apply SorterMoreFacts.startswith_app.
Qed.

Lemma startswith_head a p c s :
  startswith (String a p) (String c s) = true -> c = a.
Proof.
  unfold startswith. cbn [String.prefix].
  by destruct (ascii_dec a c) as [->|].
Qed.

Lemma absolute_src_fixed domain src :
  is_absolute src = true -> absolute_src domain src = src.
Proof.
  unfold absolute_src. intros Habs.
  destruct (startswith "/" src) eqn:Hs.
  - destruct src as [|c src]; [done|].
    apply startswith_head in Hs as ->.
    unfold is_absolute in Habs.
    apply orb_true_iff in Habs as [Hh|Hh]; by apply startswith_head in Hh.
  - unfold is_absolute in Habs. by rewrite Habs.
Qed.

Lemma process_image_attrs domain img tag :
  process_image domain img = Some tag ->
  let src := absolute_src domain (get_or_empty (img_tag img) "src") in
  tag = mkTag (name (img_tag img))
              (with_style src
                 (<["loading" := "lazy"]>
                    (with_alt (<["src" := src]> (attrs (img_tag img))))))
              (class_attr (img_tag img)).
Proof.
  unfold process_image.
  destruct (truthy (get_or_empty (img_tag img) "src")); [|done].
  destruct (_is_ui_icon img _); [done|].
  cbn [negb]. intros [= <-]. reflexivity.
Qed.

Lemma with_alt_lookup (attrs : gmap string string) key :
  key <> "alt" -> with_alt attrs !! key = attrs !! key.
Proof.
  intros Hk. unfold with_alt. case_match; [|done].
  by rewrite lookup_insert_ne.
Qed.

Lemma with_alt_truthy (attrs : gmap string string) :
  truthy (default EmptyString (with_alt attrs !! "alt")) = true.
Proof.
  unfold with_alt.
  destruct (truthy (default EmptyString (attrs !! "alt"))) eqn:E;
    cbn [negb]; [done|].
  by rewrite lookup_insert_eq.
Qed.

Lemma with_style_lookup src (attrs : gmap string string) key :
  key <> "style" -> with_style src attrs !! key = attrs !! key.
Proof.
  intros Hk. unfold with_style.
  repeat case_match; try done; by rewrite lookup_insert_ne.
Qed.

Lemma with_style_truthy src (attrs : gmap string string) :
  truthy (default EmptyString (with_style src attrs !! "style")) = true.
Proof.
  unfold with_style.
  destruct (_ || _).
  - by rewrite lookup_insert_eq.
  - destruct (truthy (default EmptyString (attrs !! "style"))) eqn:E;
      cbn [negb]; [done|].
    by rewrite lookup_insert_eq.
Qed.

(** X9: an image that [process_images] keeps has an absolute [http] or
    [https] source, an alt text that is not empty, [loading="lazy"] and a
    style that is not empty; its name and classes are unchanged. An image
    is removed exactly when it has no source or is a UI icon. Making a
    source absolute a second time changes nothing. *)
Theorem process_image_kept domain img :
  (forall tag, process_image domain img = Some tag ->
     get tag "src" = Some (absolute_src domain (get_or_empty (img_tag img) "src")) /\
     is_absolute (get_or_empty tag "src") = true /\
     truthy (get_or_empty tag "alt") = true /\
     get tag "loading" = Some "lazy" /\
     truthy (get_or_empty tag "style") = true /\
     name tag = name (img_tag img) /\
     class_attr tag = class_attr (img_tag img)) /\
  (process_image domain img = None <->
     truthy (get_or_empty (img_tag img) "src") = false \/
     _is_ui_icon img (get_or_empty (img_tag img) "src") = true) /\
  (forall src, absolute_src domain (absolute_src domain src)
               = absolute_src domain src).
Proof.
  split_and!.
  - intros tag Htag. apply process_image_attrs in Htag. subst tag.
    set (src := absolute_src domain (get_or_empty (img_tag img) "src")).
    set (final := with_style src _).
    assert (Hsrc : final !! "src" = Some src).
    { unfold final. rewrite with_style_lookup by done.
      rewrite lookup_insert_ne by done.
      rewrite with_alt_lookup by done. by rewrite lookup_insert_eq. }
    assert (Halt : truthy (default EmptyString (final !! "alt")) = true).
    { unfold final. rewrite with_style_lookup by done.
      rewrite lookup_insert_ne by done. apply with_alt_truthy. }
    assert (Hload : final !! "loading" = Some "lazy").
    { unfold final. rewrite with_style_lookup by done.
      by rewrite lookup_insert_eq. }
    assert (Hstyle : truthy (default EmptyString (final !! "style")) = true)
      by apply with_style_truthy.
    unfold get, get_or_empty. cbn [attrs name class_attr].
    split_and!; try done.
    unfold get. cbn [attrs]. rewrite Hsrc. apply absolute_src_is_absolute.
  - unfold process_image.
    destruct (truthy (get_or_empty (img_tag img) "src")); cbn [negb];
      [|split; [by left|done]].
    destruct (_is_ui_icon img _); [split; [by right|done]|].
    split; [done|]. by intros [|].
  - intros src. apply absolute_src_fixed, absolute_src_is_absolute.
Qed.

Lemma extract_go_spec image_urls imgs :
  NoDup image_urls ->
  NoDup (extract_go image_urls imgs) /\
  forall src, src ∈ extract_go image_urls imgs <->
    src ∈ image_urls \/
    truthy src = true /\ exists img, img ∈ imgs /\ get_or_empty img "src" = src.
Proof.
  revert image_urls. induction imgs as [|img rest IH]; intros acc Hnd; simpl.
  - split; [done|]. intros src. split; [by left|].
    intros [?|(_ & img & Hin & _)]; [done|]. by apply elem_of_nil in Hin.
  - destruct (truthy (get_or_empty img "src")) eqn:Ht; simpl.
    + case_bool_decide as Hin; simpl.
      * destruct (IH acc Hnd) as [Hnd' Hiff]. split; [done|].
        intros src. rewrite Hiff. split.
        -- intros [?|(? & i & ? & ?)]; [by left|].
           right. split; [done|]. exists i. split; [by right|done].
        -- intros [?|(? & i & [->|?]%elem_of_cons & E)]; [by left| |].
           ++ left. by rewrite <- E.
           ++ right. split; [done|]. by exists i.
      * destruct (IH (acc ++ [get_or_empty img "src"])) as [Hnd' Hiff].
        { apply NoDup_app. split_and!; [done| |apply NoDup_singleton].
          intros x Hx Hx'%list_elem_of_singleton. by subst. }
        split; [done|]. intros src. rewrite Hiff. split.
        -- intros [[?|E%list_elem_of_singleton]%elem_of_app|(? & i & ? & ?)].
           ++ by left.
           ++ right. subst. split; [done|]. exists img. split; [by left|done].
           ++ right. split; [done|]. exists i. split; [by right|done].
        -- intros [?|(? & i & [->|?]%elem_of_cons & E)].
           ++ left. apply elem_of_app. by left.
           ++ left. apply elem_of_app. right. by apply list_elem_of_singleton.
           ++ right. split; [done|]. by exists i.
    + destruct (IH acc Hnd) as [Hnd' Hiff]. split; [done|].
      intros src. rewrite Hiff. split.
      * intros [?|(? & i & ? & ?)]; [by left|].
        right. split; [done|]. exists i. split; [by right|done].
      * intros [?|(Hs & i & [->|?]%elem_of_cons & E)]; [by left| |].
        -- rewrite E in Ht. congruence.
        -- right. split; [done|]. by exists i.
Qed.

(** X10: the image URLs of a page hold every source of an image that is
    not empty, and each once. *)
Theorem image_urls_distinct (imgs : list Tag) :
  NoDup (_extract_image_urls imgs) /\
  forall src, src ∈ _extract_image_urls imgs <->
    truthy src = true /\ exists img, img ∈ imgs /\ get_or_empty img "src" = src.
Proof.
  destruct (extract_go_spec [] imgs) as [Hnd Hiff]; [constructor|].
  split; [done|]. intros src. unfold _extract_image_urls. rewrite Hiff.
  split; [|by right]. intros [Hin|?]; [|done]. by apply elem_of_nil in Hin.
Qed.

(** The patterns lower-cased, and the counts that do not matter. *)
Ltac lower_literals :=
  repeat match goal with
    | |- context [lower (String ?c ?s)] =>
        let v := eval vm_compute in (lower (String c s)) in
        change (lower (String c s)) with v
    end.

Ltac forget_counts :=
  repeat match goal with
    | |- context [if ?b then 1%nat else 0%nat] =>
        generalize (if b then 1%nat else 0%nat); intro
    end.

(** X11: the pattern list holds some words in three spellings, and each
    spelling is counted: a list or [nav] element with a text of fewer than
    500 characters that mentions one such word, in any case, is removed as
    a navigation menu. *)
Theorem one_word_makes_a_menu text word :
  word ∈ thrice_listed ->
  contains word (lower text) = true ->
  (String.length text < 500)%nat ->
  (3 <= nav_matches text)%nat /\ removes_menu text = true.
Proof.
  intros Hword Hin Hlen.
  assert (Hcount : (3 <= nav_matches text)%nat).
  { unfold nav_matches. simpl. lower_literals.
    unfold thrice_listed in Hword.
    repeat (apply elem_of_cons in Hword as [->|Hword];
            [rewrite !Hin; forget_counts; lia|]).
    by apply elem_of_nil in Hword. }
  split; [done|]. unfold removes_menu.
  apply andb_true_iff. split; [by apply Nat.leb_le|by apply Nat.ltb_lt].
Qed.

Lemma words_go_app cur a sp b :
  isspace sp = true ->
  words_go cur (a +:+ String sp b) = words_go cur a ++ words b.
Proof.
  intros Hsp. revert cur. induction a as [|c a IH]; intros cur; simpl.
  - rewrite Hsp. by destruct cur.
  - destruct (isspace c); [|apply IH].
    rewrite IH. by rewrite (assoc_L (++)).
Qed.

(** X12: the word count of a page is the number of maximal runs of
    characters that are not white space: it is zero for a text of white
    space alone, and the count of two texts joined by a white space
    character is the sum of their counts. *)
Theorem word_count_additive (page : PageContent.t) :
  (all_chars isspace (PageContent.text_content page) = true ->
   word_count page = O) /\
  (forall a sp b,
      PageContent.text_content page = a +:+ String sp b ->
      isspace sp = true ->
      word_count page = (length (words a) + length (words b))%nat).
Proof.
  unfold word_count. split.
  - intros Hall. destruct (truthy _); [|done].
    assert (Hw : forall s cur, all_chars isspace s = true ->
                 words_go cur s =
                   match cur with
                   | [] => []
                   | _ => [String.string_of_list_ascii (rev cur)]
                   end).
    { induction s as [|c s IH]; intros cur Hs; simpl; [done|].
      simpl in Hs. apply andb_true_iff in Hs as [-> Hs].
      rewrite (IH [] Hs). by rewrite (right_id_L [] (++)). }
    unfold words. by rewrite (Hw _ [] Hall).
  - intros a sp b -> Hsp.
    assert (truthy (a +:+ String sp b) = true) as -> by (by destruct a).
    unfold words at 1. by rewrite (words_go_app _ _ _ _ Hsp), length_app.
Qed.

Lemma process_image_kept_witness :
  get settings_kept "src"
    = Some "https://docs.example.com/images/settings.png" /\
  get settings_kept "loading" = Some "lazy" /\
  truthy (get_or_empty settings_kept "style") = true.
Proof.
  destruct (process_image_kept "docs.example.com" settings_img) as (Hkept & _).
  destruct (Hkept settings_kept) as (Hsrc & _ & _ & Hload & Hstyle & _).
  { vm_compute. reflexivity. }
  split_and!; [exact Hsrc|exact Hload|exact Hstyle].
Defined.

Lemma one_word_makes_a_menu_witness :
  removes_menu "Release notes and guides" = true.
Proof.
  apply (one_word_makes_a_menu "Release notes and guides" "guides").
  - refine (bool_decide_unpack _ _). vm_compute. exact I.
  - vm_compute. reflexivity.
  - vm_compute. lia.
Defined.

Lemma word_count_additive_witness :
  word_count two_words_page = 2%nat.
Proof.
  destruct (word_count_additive two_words_page) as (_ & Hsum).
  apply (Hsum "hello" " "%char "world"); reflexivity.
Defined.

End ParserMoreFacts.
